(** * Page editor, database builder and database viewer: block and
      property operations of the project manager front end.

    The development embeds the pure parts of three React components:
    - [PageEditor] (block list: [getDefaultContent], [addBlock],
      [updateBlock], [deleteBlock], [moveBlock], [handleSave],
      [loadPageData]) with [BlockRenderer] and the block editors;
    - [DatabaseBuilder] and [PropertyEditorDialog] ([addProperty],
      [saveProperty], [deleteProperty], [moveProperty], the options and
      [handleSave] of the property dialog, [handleSave] of the builder);
    - [DatabaseViewer] and [EntryEditorDialog] ([saveEntry], [deleteEntry],
      [filteredEntries], the initial form data, [updateField], [handleSave]
      of the entry dialog).

    React state is passed explicitly: a state updater [setBlocks (prev => e)]
    becomes a function from the previous list to the next one.  Clock reads
    ([Date.now()]) are an explicit argument. *)

From Stdlib Require Import ZArith Ascii String DecimalString DecimalPos DecimalFacts.
From stdpp Require Import base list gmap strings.

Local Open Scope string_scope.
Local Open Scope list_scope.
Local Open Scope Z_scope.

(** ** JavaScript values

    The fragment of JavaScript values that the components store in blocks and
    entries and that [JSON.stringify] preserves: null, booleans, integer
    numbers, strings, arrays and plain objects.  A string is a sequence of
    code units below 256 (one [ascii] each).  An object is the list of its
    properties in insertion order; a property read returns the last binding
    of the key, as a later assignment overrides an earlier one. *)

Unset Elimination Schemes.
Inductive jsval : Type :=
| JNull : jsval
| JBool : bool -> jsval
| JNum : Z -> jsval
| JStr : string -> jsval
| JArr : list jsval -> jsval
| JObj : list (string * jsval) -> jsval.
Set Elimination Schemes.

(** Induction on values, with the elements of arrays and objects. *)
Section jsval_induction.
Variable P : jsval → Prop.
Hypothesis Hnull : P JNull.
Hypothesis Hbool : ∀ b, P (JBool b).
Hypothesis Hnum : ∀ n, P (JNum n).
Hypothesis Hstr : ∀ s, P (JStr s).
Hypothesis Harr : ∀ l, Forall P l → P (JArr l).
Hypothesis Hobj : ∀ l, Forall (λ kv, P kv.2) l → P (JObj l).

Fixpoint jsval_ind (v : jsval) : P v :=
  match v with
  | JNull => Hnull
  | JBool b => Hbool b
  | JNum n => Hnum n
  | JStr s => Hstr s
  | JArr l =>
      Harr l ((fix go (l : list jsval) : Forall P l :=
                 match l with
                 | [] => @List.Forall_nil _ P
                 | x :: l' => @List.Forall_cons _ P x l' (jsval_ind x) (go l')
                 end) l)
  | JObj l =>
      Hobj l ((fix go (l : list (string * jsval)) : Forall (λ kv, P kv.2) l :=
                 match l with
                 | [] => @List.Forall_nil _ _
                 | kv :: l' => @List.Forall_cons _ (λ kv, P kv.2) kv l' (jsval_ind kv.2) (go l')
                 end) l)
  end.
End jsval_induction.

(** [o[k]] on a property list; [None] is [undefined]. *)
Fixpoint assoc_last (k : string) (l : list (string * jsval)) : option jsval :=
  match l with
  | [] => None
  | (k', v) :: l' =>
      match assoc_last k l' with
      | Some w => Some w
      | None => if String.eqb k k' then Some v else None
      end
  end.

Definition js_get (k : string) (v : jsval) : option jsval :=
  match v with
  | JObj l => assoc_last k l
  | _ => None
  end.

(** ** Arrays *)

(** [Array.prototype.findIndex]: the first index whose element satisfies the
    predicate, [-1] when there is none. *)
Fixpoint findIndex {A} (p : A → bool) (l : list A) : Z :=
  match l with
  | [] => -1
  | x :: l' => if p x then 0 else
                 let r := findIndex p l' in
                 if r =? -1 then -1 else r + 1
  end.

(** The index [splice] actually starts at: a negative [start] counts from the
    end, and the result is clamped to [0 .. len]. *)
Definition splice_start (len : nat) (start : Z) : nat :=
  if start <? 0 then Z.to_nat (Z.max (Z.of_nat len + start) 0)
  else Z.to_nat (Z.min start (Z.of_nat len)).

(** [a.splice(start, 0, x)]: the array after the insertion. *)
Definition splice_insert {A} (l : list A) (start : Z) (x : A) : list A :=
  let i := splice_start (length l) start in
  take i l ++ x :: drop i l.

(** [a.splice(start, 1)]: the removed elements and the array that is left. *)
Definition splice_remove {A} (l : list A) (start : Z) : list A * list A :=
  let i := splice_start (length l) start in
  (take 1 (drop i l), take i l ++ drop (S i) l).

(** ** Blocks (types of the page editor) *)

Inductive BlockType : Set :=
| text | heading | image | database | gallery | embed | divider.

Record Block : Type := mkBlock {
  Block_id : string;
  Block_type : BlockType;
  Block_position : Z;
  Block_content : jsval
}.

Inductive direction : Set := up | down.

Definition set_position (b : Block) (index : nat) : Block :=
  {| Block_id := Block_id b; Block_type := Block_type b;
     Block_position := Z.of_nat index; Block_content := Block_content b |}.

(** [l.map((block, index) => ({ ...block, position: index }))], and the
    effect on the array of
    [l.forEach((block, index) => { block.position = index })]. *)
Definition reindex (l : list Block) : list Block := imap (λ i b, set_position b i) l.

Definition getDefaultContent (type : BlockType) : jsval :=
  match type with
  | text => JObj [("text", JStr ""); ("format", JStr "paragraph")]
  | heading => JObj [("text", JStr ""); ("level", JNum 1)]
  | image => JObj [("url", JStr ""); ("caption", JStr ""); ("alt", JStr "")]
  | database => JObj [("databaseId", JStr ""); ("viewType", JStr "table")]
  | gallery => JObj [("assets", JArr []); ("layout", JStr "grid")]
  | embed => JObj [("url", JStr ""); ("title", JStr ""); ("description", JStr "")]
  | divider => JObj []
  end.

(** Decimal rendering of an integer, as a template literal renders a number. *)
Definition Z_to_string (n : Z) : string := NilZero.string_of_int (Z.to_int n).

(** [addBlock(type, position?)], with [now] the value of [Date.now()].  The
    new array is a copy of [blocks]; the position of every block object in it
    is then assigned in place.  The objects are shared with the previous
    array, which the new state replaces; the result is the new array. *)
Definition addBlock (now : Z) (blocks : list Block) (type : BlockType)
    (position : option Z) : list Block :=
  let newPosition := default (Z.of_nat (length blocks)) position in
  let newBlock :=
    {| Block_id := "block-" +:+ Z_to_string now; Block_type := type;
       Block_position := newPosition; Block_content := getDefaultContent type |} in
  let updatedBlocks := splice_insert blocks newPosition newBlock in
  reindex updatedBlocks.

(** The two places that call [addBlock]: the control of the block rendered at
    [index] passes [index + 1], the menu under the list passes no position. *)
Definition BlockRenderer_onAddBlock (now : Z) (blocks : list Block) (index : nat)
    (type : BlockType) : list Block :=
  addBlock now blocks type (Some (Z.of_nat index + 1)).

Definition AddBlockMenu_onAddBlock (now : Z) (blocks : list Block)
    (type : BlockType) : list Block :=
  addBlock now blocks type None.

Definition updateBlock (prev : list Block) (blockId : string) (content : jsval) : list Block :=
  (λ block, if String.eqb (Block_id block) blockId
            then {| Block_id := Block_id block; Block_type := Block_type block;
                    Block_position := Block_position block; Block_content := content |}
            else block) <$> prev.

Definition deleteBlock (prev : list Block) (blockId : string) : list Block :=
  let filtered := filter (λ block, Block_id block ≠ blockId) prev in
  reindex filtered.

(** The move shared by [moveBlock] and [moveProperty]: find, check the
    bounds, take the element out and put it back at the new index.  [None]
    stands for the two early [return prev]. *)
Definition move_by_id {A} (get_id : A → string) (prev : list A) (id : string)
    (dir : direction) : option (list A) :=
  let index := findIndex (λ x, String.eqb (get_id x) id) prev in
  if index =? -1 then None else
  let newIndex := match dir with up => index - 1 | down => index + 1 end in
  if (newIndex <? 0) || (newIndex >=? Z.of_nat (length prev)) then None else
  let '(moved, rest) := splice_remove prev index in
  match moved with
  | movedBlock :: _ => Some (splice_insert rest newIndex movedBlock)
  | [] => Some rest (* not reached: [index] is the index of an element *)
  end.

Definition moveBlock (prev : list Block) (blockId : string) (dir : direction) : list Block :=
  match move_by_id Block_id prev blockId dir with
  | None => prev
  | Some newBlocks => reindex newBlocks
  end.

(** Positions are [0 .. n-1] in array order. *)
Definition positions_ok (l : list Block) : Prop :=
  Block_position <$> l = Z.of_nat <$> seq 0 (length l).

(** What a block is apart from its position. *)
Definition Block_body (b : Block) : string * BlockType * jsval :=
  (Block_id b, Block_type b, Block_content b).

(** One editing step on the block list. *)
Inductive edit : Type :=
| Insert (now : Z) (type : BlockType) (position : option Z)
| Remove (blockId : string)
| Move (blockId : string) (dir : direction).

Definition apply_edit (blocks : list Block) (e : edit) : list Block :=
  match e with
  | Insert now type position => addBlock now blocks type position
  | Remove blockId => deleteBlock blocks blockId
  | Move blockId dir => moveBlock blocks blockId dir
  end.

Definition apply_edits (blocks : list Block) (es : list edit) : list Block :=
  foldl apply_edit blocks es.

(** ** Strings

    [String.prototype.trim], [toLowerCase] and [includes] on strings whose
    code units are below 256. *)

(** White space and line terminators below 256: TAB, LF, VT, FF, CR, SP and
    NBSP. *)
Definition is_whitespace (c : ascii) : bool :=
  let n := nat_of_ascii c in
  ((9 <=? n) && (n <=? 13) || (n =? 32) || (n =? 160))%nat.

Fixpoint trimStart (s : string) : string :=
  match s with
  | String c r => if is_whitespace c then trimStart r else s
  | EmptyString => EmptyString
  end.

Fixpoint trimEnd (s : string) : string :=
  match s with
  | String c r =>
      match trimEnd r with
      | EmptyString => if is_whitespace c then EmptyString else String c EmptyString
      | r' => String c r'
      end
  | EmptyString => EmptyString
  end.

Definition trim (s : string) : string := trimEnd (trimStart s).

(** Lower case of one code unit: A-Z, and the capital letters of the
    Latin-1 supplement (U+00C0 to U+00DE without the multiplication sign). *)
Definition lower_unit (c : ascii) : ascii :=
  let n := nat_of_ascii c in
  if ((65 <=? n) && (n <=? 90) || (192 <=? n) && (n <=? 222) && negb (n =? 215))%nat
  then ascii_of_nat (n + 32) else c.

Fixpoint toLowerCase (s : string) : string :=
  match s with
  | String c r => String (lower_unit c) (toLowerCase r)
  | EmptyString => EmptyString
  end.

(** [s.startsWith(sub)] and [s.includes(sub)] *)
Fixpoint startsWith (s sub : string) {struct sub} : bool :=
  match sub, s with
  | EmptyString, _ => true
  | String a sub', String b s' => Ascii.eqb a b && startsWith s' sub'
  | String _ _, EmptyString => false
  end.

Fixpoint includes (s sub : string) : bool :=
  startsWith s sub ||
  match s with
  | String _ r => includes r sub
  | EmptyString => false
  end.

(** ** Database properties and entries *)

Inductive PropertyType : Set :=
| p_text | p_number | p_date | p_select | p_multiSelect | p_checkbox
| p_url | p_email | p_phone | p_rating | p_file | p_image.

(** [DatabaseProperty]; [options?] and [required?] are optional fields. *)
Record DatabaseProperty : Type := mkProperty {
  Property_id : string;
  Property_name : string;
  Property_type : PropertyType;
  Property_options : option (list string);
  Property_required : option bool
}.

(** [DatabaseBuilder.moveProperty]; unlike [moveBlock] nothing is reindexed. *)
Definition moveProperty (prev : list DatabaseProperty) (propertyId : string)
    (dir : direction) : list DatabaseProperty :=
  match move_by_id Property_id prev propertyId dir with
  | None => prev
  | Some newProperties => newProperties
  end.

(** [PropertyEditorDialog.handleSave]: the arguments are the dialog's props and
    state; the result is the property passed to [onSave], [None] when the
    function returns before calling it. *)
Definition PropertyEditorDialog_handleSave (now : Z) (property : option DatabaseProperty)
    (name : string) (type : PropertyType) (required : bool) (options : list string)
    : option DatabaseProperty :=
  match trim name with
  | EmptyString => None
  | trimmed =>
      let generated := "prop-" +:+ Z_to_string now in
      Some {| Property_id :=
                match property with
                | Some p => match Property_id p with
                            | EmptyString => generated
                            | i => i
                            end
                | None => generated
                end;
              Property_name := trimmed;
              Property_type := type;
              Property_required := Some required;
              Property_options :=
                match type with
                | p_select | p_multiSelect => Some options
                | _ => None
                end |}
  end.

(** The empty form of [EntryEditorDialog]: the object [initialData] built by
    the effect when no entry is edited (the spec's [buildEmptyEntry]). *)
Definition zero_value (type : PropertyType) : jsval :=
  match type with
  | p_checkbox => JBool false
  | p_multiSelect => JArr []
  | p_rating => JNum 0
  | _ => JStr ""
  end.

(** [object[key] = value] on an object made by [{}]; the map holds the
    properties of the object itself.  With the key [__proto__], and no
    property of that name in the object itself, the assignment reaches the
    accessor that every such object inherits, which makes no property (it
    replaces the prototype when the value is an object, as the empty array
    is, and does nothing otherwise).  In every other case the key gets the
    value, no inherited property being read-only. *)
Definition assign (object : gmap string jsval) (key : string) (value : jsval)
    : gmap string jsval :=
  if String.eqb key "__proto__" && negb (bool_decide (is_Some (object !! key)))
  then object
  else <[key := value]> object.

Definition initialData (properties : list DatabaseProperty) : gmap string jsval :=
  foldl (λ data property,
           assign data (Property_name property) (zero_value (Property_type property)))
        ∅ properties.


(** [EntryEditorDialog.handleSave]: [onSave(formData)], nothing else. *)
Definition EntryEditorDialog_handleSave {R} (onSave : gmap string jsval → R)
    (formData : gmap string jsval) : R :=
  onSave formData.

(** The only use of [required] in the entry form: the label of a property
    shows a red asterisk when [property.required] is truthy. *)
Definition required_marker (property : DatabaseProperty) : bool :=
  match Property_required property with
  | Some true => true
  | _ => false
  end.

Definition marked_properties (properties : list DatabaseProperty)
    (formData : gmap string jsval) : list string :=
  Property_id <$> filter (λ property, required_marker property = true) properties.

(** An entry of a database; only the parsed [data] matters here. *)
Record DatabaseEntry : Type := mkEntry {
  Entry_id : string;
  Entry_data : gmap string jsval
}.

(** The predicate of [DatabaseViewer.filteredEntries]. *)
Definition entry_matches (searchQuery : string) (properties : list DatabaseProperty)
    (entry : DatabaseEntry) : bool :=
  match searchQuery with
  | EmptyString => true
  | _ =>
      existsb (λ property,
                 match Entry_data entry !! Property_name property with
                 | Some (JStr value) => includes (toLowerCase value) (toLowerCase searchQuery)
                 | _ => false
                 end) properties
  end.

Definition filteredEntries (entries : list DatabaseEntry) (searchQuery : string)
    (properties : list DatabaseProperty) : list DatabaseEntry :=
  filter (λ entry, entry_matches searchQuery properties entry = true) entries.

(** The spec's [validateEntry], following the spec's words; no function of
    the components computes it.  A property fails when it is required and its
    value is absent or, for a property that holds a string (text, url, email,
    phone, date), empty after trimming. *)
Definition string_typed (type : PropertyType) : bool :=
  match type with
  | p_text | p_url | p_email | p_phone | p_date => true
  | _ => false
  end.

Definition value_fails (type : PropertyType) (value : option jsval) : bool :=
  match value with
  | None => true
  | Some (JStr s) =>
      string_typed type && match trim s with EmptyString => true | _ => false end
  | Some _ => false
  end.

Definition validateEntry_spec (schema : list DatabaseProperty)
    (data : gmap string jsval) : list string :=
  Property_id <$>
    filter (λ property, required_marker property = true ∧
                        value_fails (Property_type property)
                                    (data !! Property_name property) = true) schema.

(** ** JSON

    [JSON.stringify] and [JSON.parse] on the values above.  Numbers are
    integers written in plain decimal; a number with a fraction or an exponent
    is outside the fragment and is not accepted by the parser.  An escape
    [\uXXXX] is accepted for code units below 256.  [None] stands for the
    [SyntaxError] that [JSON.parse] throws, and also for a text whose value
    is outside the fragment; [JSON_valid] below tells the two apart. *)

Definition hex_unit (n : nat) : ascii :=
  if (n <? 10)%nat then ascii_of_nat (48 + n) else ascii_of_nat (87 + n).

(** One code unit of a quoted string, written in front of [rest]. *)
Definition write_unit (c : ascii) (rest : string) : string :=
  match c with
  | "034"%char => String "092" (String "034" rest)
  | "092"%char => String "092" (String "092" rest)
  | "008"%char => String "092" (String "b" rest)
  | "012"%char => String "092" (String "f" rest)
  | "010"%char => String "092" (String "n" rest)
  | "013"%char => String "092" (String "r" rest)
  | "009"%char => String "092" (String "t" rest)
  | _ =>
      let n := nat_of_ascii c in
      if (n <? 32)%nat
      then String "092" (String "u" (String "0" (String "0"
             (String (hex_unit (n / 16)) (String (hex_unit (n mod 16)) rest)))))
      else String c rest
  end.

Fixpoint write_units (s rest : string) : string :=
  match s with
  | String c r => write_unit c (write_units r rest)
  | EmptyString => rest
  end.

Definition write_string (s rest : string) : string :=
  String "034" (write_units s (String "034" rest)).

(** The text of a value, in front of [rest]. *)
Fixpoint JSON_write (v : jsval) (rest : string) : string :=
  match v with
  | JNull => "null" +:+ rest
  | JBool true => "true" +:+ rest
  | JBool false => "false" +:+ rest
  | JNum n => Z_to_string n +:+ rest
  | JStr s => write_string s rest
  | JArr l =>
      String "["
        match l with
        | [] => String "]" rest
        | x :: l' =>
            JSON_write x
              ((fix elements (l : list jsval) : string :=
                  match l with
                  | [] => String "]" rest
                  | y :: l'' => String "," (JSON_write y (elements l''))
                  end) l')
        end
  | JObj l =>
      String "{"
        match l with
        | [] => String "}" rest
        | (k, x) :: l' =>
            write_string k (String ":" (JSON_write x
              ((fix members (l : list (string * jsval)) : string :=
                  match l with
                  | [] => String "}" rest
                  | (k', y) :: l'' =>
                      String "," (write_string k' (String ":" (JSON_write y (members l''))))
                  end) l')))
        end
  end.

Definition JSON_stringify (v : jsval) : string := JSON_write v "".

(** JSON white space: space, TAB, LF, CR. *)
Definition is_json_ws (c : ascii) : bool :=
  match c with
  | " "%char | "009"%char | "010"%char | "013"%char => true
  | _ => false
  end.

Fixpoint skip_ws (s : string) : string :=
  match s with
  | String c r => if is_json_ws c then skip_ws r else s
  | EmptyString => EmptyString
  end.

Definition hex_value (c : ascii) : option nat :=
  let n := nat_of_ascii c in
  if ((48 <=? n) && (n <=? 57))%nat then Some (n - 48)%nat
  else if ((97 <=? n) && (n <=? 102))%nat then Some (n - 87)%nat
  else if ((65 <=? n) && (n <=? 70))%nat then Some (n - 55)%nat
  else None.

(** The code unit of [\uXXXX], when it is below 256. *)
Definition hex4 (h1 h2 h3 h4 : ascii) : option ascii :=
  match hex_value h1, hex_value h2, hex_value h3, hex_value h4 with
  | Some 0%nat, Some 0%nat, Some a, Some b => Some (ascii_of_nat (16 * a + b))
  | _, _, _, _ => None
  end.

Definition unescape (e : ascii) : option ascii :=
  match e with
  | "034"%char => Some "034"%char
  | "092"%char => Some "092"%char
  | "/"%char => Some "/"%char
  | "b"%char => Some "008"%char
  | "f"%char => Some "012"%char
  | "n"%char => Some "010"%char
  | "r"%char => Some "013"%char
  | "t"%char => Some "009"%char
  | _ => None
  end.

Definition cons_unit (c : ascii) (r : option (string * string)) : option (string * string) :=
  match r with
  | Some (s, rest) => Some (String c s, rest)
  | None => None
  end.

(** The characters of a string literal after its opening quote, up to the
    closing quote; the result is the string and what follows the literal. *)
Fixpoint read_string (s : string) : option (string * string) :=
  match s with
  | EmptyString => None
  | String "034" r => Some (EmptyString, r)
  | String "092" EmptyString => None
  | String "092" (String e r) =>
      match unescape e with
      | Some c => cons_unit c (read_string r)
      | None =>
          match e, r with
          | "u"%char, String h1 (String h2 (String h3 (String h4 r'))) =>
              match hex4 h1 h2 h3 h4 with
              | Some c => cons_unit c (read_string r')
              | None => None
              end
          | _, _ => None
          end
      end
  | String c r =>
      if (nat_of_ascii c <? 32)%nat then None else cons_unit c (read_string r)
  end.

(** The longest prefix of decimal digits. *)
Fixpoint read_digits (s : string) : Decimal.uint * string :=
  match s with
  | String c r =>
      let '(d, rest) := read_digits r in
      match uint_of_char c (Some d) with
      | Some d' => (d', rest)
      | None => (Decimal.Nil, s)
      end
  | EmptyString => (Decimal.Nil, EmptyString)
  end.

(** An integer literal: an optional minus sign, then [0] or digits that do
    not start with [0]. *)
Definition read_number (s : string) : option (Z * string) :=
  let '(negative, s') :=
    match s with
    | String "-" r => (true, r)
    | _ => (false, s)
    end in
  let '(d, rest) := read_digits s' in
  match d with
  | Decimal.Nil => None
  | Decimal.D0 (Decimal.D0 _ | Decimal.D1 _ | Decimal.D2 _ | Decimal.D3 _ | Decimal.D4 _
               | Decimal.D5 _ | Decimal.D6 _ | Decimal.D7 _ | Decimal.D8 _ | Decimal.D9 _) => None
  | _ => Some (if negative then - Z.of_uint d else Z.of_uint d, rest)
  end.

Definition read_literal (word : string) (v : jsval) (s : string) : option (jsval * string) :=
  (fix go (w s : string) : option (jsval * string) :=
     match w, s with
     | EmptyString, _ => Some (v, s)
     | String a w', String b s' => if Ascii.eqb a b then go w' s' else None
     | String _ _, EmptyString => None
     end) word s.

Section Parser.
(** The parser of the values inside an array or an object. *)
Variable parse_inner : string → option (jsval * string).

(** The elements of an array after its first bracket, at most [n] of them. *)
Fixpoint parse_elements (n : nat) (s : string) : option (list jsval * string) :=
  match n with
  | O => None
  | S n' =>
      match parse_inner s with
      | Some (v, r) =>
          match skip_ws r with
          | String "," r' =>
              match parse_elements n' r' with
              | Some (vs, r'') => Some (v :: vs, r'')
              | None => None
              end
          | String "]" r' => Some ([v], r')
          | _ => None
          end
      | None => None
      end
  end.

(** The members of an object after its brace, at most [n] of them. *)
Fixpoint parse_members (n : nat) (s : string) : option (list (string * jsval) * string) :=
  match n with
  | O => None
  | S n' =>
      match skip_ws s with
      | String "034" r =>
          match read_string r with
          | Some (k, r1) =>
              match skip_ws r1 with
              | String ":" r2 =>
                  match parse_inner r2 with
                  | Some (v, r3) =>
                      match skip_ws r3 with
                      | String "," r4 =>
                          match parse_members n' r4 with
                          | Some (ms, r5) => Some ((k, v) :: ms, r5)
                          | None => None
                          end
                      | String "}" r4 => Some ([(k, v)], r4)
                      | _ => None
                      end
                  | None => None
                  end
              | _ => None
              end
          | None => None
          end
      | _ => None
      end
  end.
(** One value, with leading white space; [n] bounds the number of elements
    of an array or object. *)
Definition parse_step (n : nat) (s : string) : option (jsval * string) :=
  match skip_ws s with
  | EmptyString => None
  | String "n" r => read_literal "ull" JNull r
  | String "t" r => read_literal "rue" (JBool true) r
  | String "f" r => read_literal "alse" (JBool false) r
  | String "034" r =>
      match read_string r with
      | Some (str, r') => Some (JStr str, r')
      | None => None
      end
  | String "[" r =>
      match skip_ws r with
      | String "]" r' => Some (JArr [], r')
      | _ =>
          match parse_elements n r with
          | Some (vs, r') => Some (JArr vs, r')
          | None => None
          end
      end
  | String "{" r =>
      match skip_ws r with
      | String "}" r' => Some (JObj [], r')
      | _ =>
          match parse_members n r with
          | Some (ms, r') => Some (JObj ms, r')
          | None => None
          end
      end
  | String c r =>
      match read_number (String c r) with
      | Some (n, r') => Some (JNum n, r')
      | None => None
      end
  end.
End Parser.

(** One value; [fuel] bounds the nesting depth and the number of elements of
    an array or object. *)
Fixpoint parse_value (fuel : nat) (s : string) : option (jsval * string) :=
  match fuel with
  | O => None
  | S fuel' => parse_step (parse_value fuel') fuel' s
  end.

(** [JSON.parse(s)]: one value and nothing but white space after it.  The
    fuel is the length of the text, which bounds the nesting depth and the
    number of elements of what it holds; more fuel gives the same answer
    (lemma [JSON_parse_fuel]). *)
Definition JSON_parse (s : string) : option jsval :=
  match parse_value (S (String.length s)) s with
  | Some (v, rest) =>
      match skip_ws rest with
      | EmptyString => Some v
      | String _ _ => None
      end
  | None => None
  end.

(** *** The grammar of JSON

    [JSON.parse] accepts more texts than [JSON_parse] reads: a number may
    have a fraction and an exponent, and an escape [\uXXXX] may name any code
    unit.  Whether a text is JSON at all, that is whether [JSON.parse] returns
    or throws its [SyntaxError], is decided here by one pass over the text,
    from left to right, with the arrays and objects that are open on a
    stack. *)

Inductive container : Set := in_array | in_object.

(** Where the pass stands in the text. *)
Inductive position : Set :=
  | before_value                    (* a value must follow *)
  | array_start                     (* after [[]: a value or [_]] *)
  | object_start                    (* after [{]: a key or [}] *)
  | before_key                      (* after the comma of an object *)
  | before_colon                    (* after a key *)
  | after_value                     (* a comma, a closing bracket, or the end *)
  | in_word (rest : string)         (* in [null], [true], [false] *)
  | in_string (key : bool)          (* in a string; [key] for the key of a member *)
  | in_escape (key : bool)          (* after a backslash *)
  | in_hex (digits : nat) (key : bool)   (* [digits] hexadecimal digits to come *)
  | after_minus
  | after_zero
  | in_integer
  | after_point
  | in_fraction
  | after_e
  | after_exponent_sign
  | in_exponent.

Definition is_digit (c : ascii) : bool :=
  match c with
  | "0"%char | "1"%char | "2"%char | "3"%char | "4"%char
  | "5"%char | "6"%char | "7"%char | "8"%char | "9"%char => true
  | _ => false
  end.

(** The first character of a value. *)
Definition begin_value (c : ascii) (stack : list container)
    : option (position * list container) :=
  match c with
  | "n"%char => Some (in_word "ull", stack)
  | "t"%char => Some (in_word "rue", stack)
  | "f"%char => Some (in_word "alse", stack)
  | "034"%char => Some (in_string false, stack)
  | "["%char => Some (array_start, in_array :: stack)
  | "{"%char => Some (object_start, in_object :: stack)
  | "-"%char => Some (after_minus, stack)
  | "0"%char => Some (after_zero, stack)
  | _ => if is_digit c then Some (in_integer, stack) else None
  end.

(** The character after a value. *)
Definition end_value (c : ascii) (stack : list container)
    : option (position * list container) :=
  if is_json_ws c then Some (after_value, stack)
  else
    match c, stack with
    | ","%char, in_array :: _ => Some (before_value, stack)
    | ","%char, in_object :: _ => Some (before_key, stack)
    | "]"%char, in_array :: stack' => Some (after_value, stack')
    | "}"%char, in_object :: stack' => Some (after_value, stack')
    | _, _ => None
    end.

Definition is_exponent_mark (c : ascii) : bool :=
  match c with
  | "e"%char | "E"%char => true
  | _ => false
  end.

(** One character; [None] when the text is not JSON. *)
Definition json_step (p : position) (stack : list container) (c : ascii)
    : option (position * list container) :=
  match p with
  | before_value =>
      if is_json_ws c then Some (before_value, stack) else begin_value c stack
  | array_start =>
      if is_json_ws c then Some (array_start, stack)
      else match c, stack with
           | "]"%char, in_array :: stack' => Some (after_value, stack')
           | _, _ => begin_value c stack
           end
  | object_start =>
      if is_json_ws c then Some (object_start, stack)
      else match c, stack with
           | "}"%char, in_object :: stack' => Some (after_value, stack')
           | "034"%char, _ => Some (in_string true, stack)
           | _, _ => None
           end
  | before_key =>
      if is_json_ws c then Some (before_key, stack)
      else match c with
           | "034"%char => Some (in_string true, stack)
           | _ => None
           end
  | before_colon =>
      if is_json_ws c then Some (before_colon, stack)
      else match c with
           | ":"%char => Some (before_value, stack)
           | _ => None
           end
  | after_value => end_value c stack
  | in_word EmptyString => None
  | in_word (String a rest) =>
      if Ascii.eqb a c
      then Some (match rest with EmptyString => after_value | _ => in_word rest end, stack)
      else None
  | in_string key =>
      match c with
      | "034"%char => Some (if key then before_colon else after_value, stack)
      | "092"%char => Some (in_escape key, stack)
      | _ => if (nat_of_ascii c <? 32)%nat then None else Some (in_string key, stack)
      end
  | in_escape key =>
      match c with
      | "u"%char => Some (in_hex 4 key, stack)
      | _ => match unescape c with
             | Some _ => Some (in_string key, stack)
             | None => None
             end
      end
  | in_hex digits key =>
      match hex_value c with
      | Some _ =>
          Some (match digits with
                | S (S n) => in_hex (S n) key
                | _ => in_string key
                end, stack)
      | None => None
      end
  | after_minus =>
      match c with
      | "0"%char => Some (after_zero, stack)
      | _ => if is_digit c then Some (in_integer, stack) else None
      end
  | after_zero =>
      match c with
      | "."%char => Some (after_point, stack)
      | _ => if is_exponent_mark c then Some (after_e, stack) else end_value c stack
      end
  | in_integer =>
      match c with
      | "."%char => Some (after_point, stack)
      | _ => if is_digit c then Some (in_integer, stack)
             else if is_exponent_mark c then Some (after_e, stack)
             else end_value c stack
      end
  | after_point =>
      if is_digit c then Some (in_fraction, stack) else None
  | in_fraction =>
      if is_digit c then Some (in_fraction, stack)
      else if is_exponent_mark c then Some (after_e, stack)
      else end_value c stack
  | after_e =>
      match c with
      | "+"%char | "-"%char => Some (after_exponent_sign, stack)
      | _ => if is_digit c then Some (in_exponent, stack) else None
      end
  | after_exponent_sign =>
      if is_digit c then Some (in_exponent, stack) else None
  | in_exponent =>
      if is_digit c then Some (in_exponent, stack) else end_value c stack
  end.

(** Whether the text may end here: after a value, nothing being open. *)
Definition json_end (p : position) (stack : list container) : bool :=
  match stack, p with
  | [], (after_value | after_zero | in_integer | in_fraction | in_exponent) => true
  | _, _ => false
  end.

Fixpoint json_run (p : position) (stack : list container) (s : string) : bool :=
  match s with
  | EmptyString => json_end p stack
  | String c r =>
      match json_step p stack c with
      | Some (p', stack') => json_run p' stack' r
      | None => false
      end
  end.

(** Whether [JSON.parse(s)] returns ([true]) or throws ([false]). *)
Definition JSON_valid (s : string) : bool := json_run before_value [] s.

(** ** Loading and saving a page *)

Definition BlockType_name (type : BlockType) : string :=
  match type with
  | text => "text"
  | heading => "heading"
  | image => "image"
  | database => "database"
  | gallery => "gallery"
  | embed => "embed"
  | divider => "divider"
  end.

Definition BlockType_of_name (s : string) : option BlockType :=
  if String.eqb s "text" then Some text
  else if String.eqb s "heading" then Some heading
  else if String.eqb s "image" then Some image
  else if String.eqb s "database" then Some database
  else if String.eqb s "gallery" then Some gallery
  else if String.eqb s "embed" then Some embed
  else if String.eqb s "divider" then Some divider
  else None.

(** A block of the editor as the object it is, with the keys in the order in
    which [addBlock] writes them. *)
Definition Block_to_js (b : Block) : jsval :=
  JObj [("id", JStr (Block_id b));
        ("type", JStr (BlockType_name (Block_type b)));
        ("position", JNum (Block_position b));
        ("content", Block_content b)].

(** The fields that the editor reads from an element of the parsed array,
    which it takes for a [Block] without a check. *)
Definition Block_of_js (v : jsval) : option Block :=
  match js_get "id" v, js_get "type" v, js_get "position" v, js_get "content" v with
  | Some (JStr i), Some (JStr t), Some (JNum p), Some c =>
      match BlockType_of_name t with
      | Some type => Some (mkBlock i type p c)
      | None => None
      end
  | _, _, _, _ => None
  end.

(** [PageEditor.handleSave]: the [content] that is stored and passed on. *)
Definition PageEditor_handleSave (blocks : list Block) : string :=
  JSON_stringify (JArr (Block_to_js <$> blocks)).

(** The block of the [catch] branch of [loadPageData]. *)
Definition fallback_block (content : option string) : jsval :=
  JObj [("id", JStr "block-1");
        ("type", JStr "text");
        ("content", JObj [("text", JStr (default "" content)); ("format", JStr "paragraph")]);
        ("position", JNum 0)].

(** [PageEditor.loadPageData]: the value of [blocks] once the effect has run.
    [content] is [page.content] ([None] for [null]); [resources_throw] tells
    whether one of the awaited requests for databases and assets, which run
    in the same [try] after the blocks are set, throws (none is made when
    [page.projectId] is empty).

    [parsed] is [Array.isArray(parsedBlocks) ? parsedBlocks : []], and [None]
    when [JSON.parse] throws, which it does exactly on a text that is not
    JSON.  The elements of an array are the values that [JSON_parse] reads; an
    array that holds a number with a fraction or an exponent, or a code unit
    from 256 on, has elements outside the values modelled here, and the
    properties below tell nothing about it. *)
Definition loadPageData (content : option string) (resources_throw : bool) : list jsval :=
  let parsed :=
    match content with
    | Some (String _ _ as c) =>
        if JSON_valid c
        then Some match JSON_parse c with
                  | Some (JArr parsedBlocks) => parsedBlocks
                  | _ => []
                  end
        else None
    | _ => Some []
    end in
  match parsed with
  | None => [fallback_block content]
  | Some parsedBlocks =>
      if resources_throw then [fallback_block content] else parsedBlocks
  end.

(** ** Auxiliary definitions for the proofs about JSON *)

Fixpoint write_elements (l : list jsval) (rest : string) : string :=
  match l with
  | [] => String "]" rest
  | y :: l' => String "," (JSON_write y (write_elements l' rest))
  end.

Fixpoint write_members (l : list (string * jsval)) (rest : string) : string :=
  match l with
  | [] => String "}" rest
  | (k, y) :: l' => String "," (write_string k (String ":" (JSON_write y (write_members l' rest))))
  end.

(** Number of nodes of a value. *)
Fixpoint jsize (v : jsval) : nat :=
  match v with
  | JArr l => S ((fix sum (l : list jsval) : nat :=
                    match l with [] => O | x :: l' => (jsize x + sum l')%nat end) l)
  | JObj l => S ((fix sum (l : list (string * jsval)) : nat :=
                    match l with [] => O | (_, x) :: l' => (jsize x + sum l')%nat end) l)
  | _ => 1%nat
  end.

(** The first character of the text of a value. *)
Definition value_head (c : ascii) : bool :=
  match c with
  | "n"%char | "t"%char | "f"%char | "034"%char | "["%char | "{"%char | "-"%char
  | "0"%char | "1"%char | "2"%char | "3"%char | "4"%char
  | "5"%char | "6"%char | "7"%char | "8"%char | "9"%char => true
  | _ => false
  end.

Definition starts_value (s : string) : bool :=
  match s with
  | String c _ => value_head c
  | EmptyString => false
  end.

Definition number_head (c : ascii) : bool :=
  match c with
  | "-"%char
  | "0"%char | "1"%char | "2"%char | "3"%char | "4"%char
  | "5"%char | "6"%char | "7"%char | "8"%char | "9"%char => true
  | _ => false
  end.

(** No decimal digit at the head. *)
Definition no_digit (s : string) : Prop := read_digits s = (Decimal.Nil, s).

(** Digits with no leading zero. *)
Definition canonical (d : Decimal.uint) : Prop :=
  match d with
  | Decimal.Nil => False
  | Decimal.D0 Decimal.Nil => True
  | Decimal.D0 _ => False
  | _ => True
  end.

(** A parser that succeeds leaves less than it was given. *)
Definition consumes (pv : string → option (jsval * string)) : Prop :=
  ∀ s v r, pv s = Some (v, r) → (String.length r < String.length s)%nat.

(** Parsing the text of [v] gives [v] and leaves what follows the text. *)
Definition parses_back (v : jsval) : Prop :=
  ∀ fuel rest, (jsize v ≤ fuel)%nat → no_digit rest →
    parse_value fuel (JSON_write v rest) = Some (v, rest).

(** A position in which white space is passed over. *)
Definition waits (p : position) : bool :=
  match p with
  | before_value | array_start | object_start | before_key | before_colon | after_value => true
  | _ => false
  end.

(** The text goes on as a number would: a fraction or an exponent follows. *)
Definition goes_on (s : string) : bool :=
  match s with
  | String "." _ | String "e" _ | String "E" _ => true
  | _ => false
  end.

(** A parser that reads a value where the grammar has one. *)
Definition reads_value (pv : string → option (jsval * string)) : Prop :=
  ∀ s v r (stack : list container), pv s = Some (v, r) → goes_on r = false →
    json_run before_value stack s = json_run after_value stack r.

(** ** Further operations of the page editor *)

(** The four state changes of the block list, [updateBlock] included. *)
Inductive action : Type :=
| AddBlock (now : Z) (type : BlockType) (position : option Z)
| UpdateBlock (blockId : string) (content : jsval)
| DeleteBlock (blockId : string)
| MoveBlock (blockId : string) (dir : direction).

Definition apply_action (blocks : list Block) (a : action) : list Block :=
  match a with
  | AddBlock now type position => addBlock now blocks type position
  | UpdateBlock blockId content => updateBlock blocks blockId content
  | DeleteBlock blockId => deleteBlock blocks blockId
  | MoveBlock blockId dir => moveBlock blocks blockId dir
  end.

(** A value in a boolean position: [undefined], [null], [false], [0] and the
    empty string are falsy. *)
Definition js_truthy (v : option jsval) : bool :=
  match v with
  | None | Some JNull | Some (JBool false) | Some (JNum 0) | Some (JStr EmptyString) => false
  | Some _ => true
  end.

(** The own enumerable properties that an object spread [{ ...v }] copies:
    those of an object, the indices of an array or of a string, none for
    [undefined], [null], numbers and booleans. *)
Fixpoint string_units (s : string) : list jsval :=
  match s with
  | String c r => JStr (String c EmptyString) :: string_units r
  | EmptyString => []
  end.

Definition js_spread (v : option jsval) : list (string * jsval) :=
  match v with
  | Some (JObj l) => l
  | Some (JArr l) => imap (λ i x, (Z_to_string (Z.of_nat i), x)) l
  | Some (JStr s) => imap (λ i x, (Z_to_string (Z.of_nat i), x)) (string_units s)
  | _ => []
  end.

(** Writing property [k]: an existing property keeps its place, a new one
    comes last. *)
Definition obj_set (k : string) (v : jsval) (l : list (string * jsval))
    : list (string * jsval) :=
  if existsb (λ kv, String.eqb kv.1 k) l
  then (λ kv, if String.eqb kv.1 k then (kv.1, v) else kv) <$> l
  else l ++ [(k, v)].

(** [{ ...content, [k]: v }], the content that the block editors hand to
    [onUpdate]: the text and format of [TextBlockEditor], the text of
    [HeadingBlockEditor], the caption and url of [ImageBlockEditor], the
    databaseId and viewType of [DatabaseBlockEditor]. *)
Definition content_with (content : jsval) (k : string) (v : jsval) : jsval :=
  JObj (obj_set k v (js_spread (Some content))).

(** [ImageBlockEditor.handleFileUpload] once the upload has answered:
    [{ ...block.content, url: publicUrl, alt: file.name }]. *)
Definition ImageBlockEditor_uploaded (content : jsval) (publicUrl fileName : string) : jsval :=
  JObj (obj_set "alt" (JStr fileName)
         (obj_set "url" (JStr publicUrl) (js_spread (Some content)))).

(** [ProjectPage.createPage]: the [content] of a new page. *)
Definition createPage_content (title : string) : string :=
  JSON_stringify
    (JArr [JObj [("id", JStr "block-1");
                 ("type", JStr "text");
                 ("content", JObj [("text", JStr ("Welcome to " +:+ title +:+ "!"));
                                   ("format", JStr "paragraph")]);
                 ("position", JNum 0)]]).

(** ** Further operations of the database builder *)

(** [DatabaseBuilder.addProperty]: the property handed to the dialog. *)
Definition addProperty (now : Z) : DatabaseProperty :=
  {| Property_id := "prop-" +:+ Z_to_string now; Property_name := "";
     Property_type := p_text; Property_options := None;
     Property_required := Some false |}.

(** [DatabaseBuilder.saveProperty]: a property whose id is in the list
    replaces the ones of that id, another one is appended. *)
Definition saveProperty (properties : list DatabaseProperty) (property : DatabaseProperty)
    : list DatabaseProperty :=
  if existsb (λ p, String.eqb (Property_id p) (Property_id property)) properties
  then (λ p, if String.eqb (Property_id p) (Property_id property) then property else p)
         <$> properties
  else properties ++ [property].

Definition deleteProperty (prev : list DatabaseProperty) (propertyId : string)
    : list DatabaseProperty :=
  filter (λ p, Property_id p ≠ propertyId) prev.

(** The state of [PropertyEditorDialog] after its effect has run for
    [property]: name, type, required and options. *)
Definition PropertyEditorDialog_state (property : option DatabaseProperty)
    : string * PropertyType * bool * list string :=
  match property with
  | Some p => (Property_name p, Property_type p,
               default false (Property_required p),
               default [] (Property_options p))
  | None => ("", p_text, false, [])
  end.

(** [PropertyEditorDialog.addOption] on the state [(options, newOption)]. *)
Definition addOption (options : list string) (newOption : string) : list string * string :=
  match trim newOption with
  | EmptyString => (options, newOption)
  | trimmed =>
      if existsb (String.eqb trimmed) options then (options, newOption)
      else (options ++ [trimmed], "")
  end.

Definition removeOption (prev : list string) (option : string) : list string :=
  filter (λ o, o ≠ option) prev.

(** Opening the dialog on [property] and saving at once. *)
Definition PropertyEditorDialog_resave (now : Z) (property : DatabaseProperty)
    : option DatabaseProperty :=
  let '(name, type, required, options) := PropertyEditorDialog_state (Some property) in
  PropertyEditorDialog_handleSave now (Some property) name type required options.

Definition PropertyType_name (type : PropertyType) : string :=
  match type with
  | p_text => "text" | p_number => "number" | p_date => "date"
  | p_select => "select" | p_multiSelect => "multiSelect" | p_checkbox => "checkbox"
  | p_url => "url" | p_email => "email" | p_phone => "phone"
  | p_rating => "rating" | p_file => "file" | p_image => "image"
  end.

Definition PropertyType_of_name (s : string) : option PropertyType :=
  if String.eqb s "text" then Some p_text
  else if String.eqb s "number" then Some p_number
  else if String.eqb s "date" then Some p_date
  else if String.eqb s "select" then Some p_select
  else if String.eqb s "multiSelect" then Some p_multiSelect
  else if String.eqb s "checkbox" then Some p_checkbox
  else if String.eqb s "url" then Some p_url
  else if String.eqb s "email" then Some p_email
  else if String.eqb s "phone" then Some p_phone
  else if String.eqb s "rating" then Some p_rating
  else if String.eqb s "file" then Some p_file
  else if String.eqb s "image" then Some p_image
  else None.

(** A property as the object it is, with the keys in the order in which the
    dialog writes them; an optional field that is not there has no key. *)
Definition Property_to_js (p : DatabaseProperty) : jsval :=
  JObj ([("id", JStr (Property_id p));
         ("name", JStr (Property_name p));
         ("type", JStr (PropertyType_name (Property_type p)))]
        ++ match Property_required p with
           | Some b => [("required", JBool b)]
           | None => []
           end
        ++ match Property_options p with
           | Some os => [("options", JArr (JStr <$> os))]
           | None => []
           end).

Fixpoint strings_of_js (l : list jsval) : option (list string) :=
  match l with
  | [] => Some []
  | JStr s :: l' =>
      match strings_of_js l' with
      | Some ss => Some (s :: ss)
      | None => None
      end
  | _ :: _ => None
  end.

(** The fields read from an element of the parsed [properties]. *)
Definition Property_of_js (v : jsval) : option DatabaseProperty :=
  match js_get "id" v, js_get "name" v, js_get "type" v with
  | Some (JStr i), Some (JStr n), Some (JStr t) =>
      match PropertyType_of_name t with
      | Some type =>
          match js_get "required" v, js_get "options" v with
          | (None | Some (JBool _)) as r, None =>
              Some (mkProperty i n type None
                      match r with Some (JBool b) => Some b | _ => None end)
          | (None | Some (JBool _)) as r, Some (JArr os) =>
              match strings_of_js os with
              | Some ss =>
                  Some (mkProperty i n type (Some ss)
                          match r with Some (JBool b) => Some b | _ => None end)
              | None => None
              end
          | _, _ => None
          end
      | None => None
      end
  | _, _, _ => None
  end.

(** [DatabaseBuilder.handleSave]: the [properties] text that is stored, and
    [None] when the name is blank and nothing is saved. *)
Definition DatabaseBuilder_handleSave (name : string) (properties : list DatabaseProperty)
    : option string :=
  match trim name with
  | EmptyString => None
  | _ => Some (JSON_stringify (JArr (Property_to_js <$> properties)))
  end.

(** The parse of [loadProjectData] and [loadPageData]:
    [typeof db.properties === 'string' ? JSON.parse(db.properties) : ...];
    [None] when [JSON.parse] throws. *)
Definition parse_properties (stored : string) : option jsval := JSON_parse stored.

(** ** Further operations of the database viewer *)

(** [DatabaseViewer.saveEntry], the change of [entries] once the request has
    answered: with an entry being edited its data is replaced, otherwise a
    new entry comes first.  (The record holds the id and the data only; the
    time stamps and owner fields that the code also writes are left out.) *)
Definition saveEntry (now : Z) (editingEntry : option DatabaseEntry)
    (prev : list DatabaseEntry) (entryData : gmap string jsval) : list DatabaseEntry :=
  match editingEntry with
  | Some editing =>
      (λ e, if String.eqb (Entry_id e) (Entry_id editing)
            then mkEntry (Entry_id e) entryData else e) <$> prev
  | None => mkEntry ("entry-" +:+ Z_to_string now) entryData :: prev
  end.

Definition deleteEntry (prev : list DatabaseEntry) (entryId : string) : list DatabaseEntry :=
  filter (λ e, Entry_id e ≠ entryId) prev.

(** [EntryEditorDialog.updateField]: [{ ...prev, [propertyName]: value }]. *)
Definition updateField (prev : gmap string jsval) (propertyName : string) (value : jsval)
    : gmap string jsval :=
  <[propertyName := value]> prev.

(** The five stars of a rating.  In the table ([renderPropertyValue]) star
    [i] of [0 .. 4] is lit when [i < value]; in the form star [rating] of
    [1 .. 5] is lit when [rating <= (formData[property.name] || 0)]. *)
Definition viewer_stars (value : Z) : list bool :=
  (λ i, i <? value) <$> [0; 1; 2; 3; 4].

Definition form_stars (value : option Z) : list bool :=
  let shown := match value with Some 0 | None => 0 | Some n => n end in
  (λ rating, rating <=? shown) <$> [1; 2; 3; 4; 5].

(** ** The database block of the page editor *)

Record Database : Type := mkDatabase {
  Database_id : string;
  Database_projectId : string;
  Database_userId : string;
  Database_name : string;
  Database_description : option string;
  Database_viewType : string;
  Database_properties : list DatabaseProperty;
  Database_createdAt : string;
  Database_updatedAt : string
}.

(** What [BlockRenderer] puts into its content part: the element of the
    editor of the block, a separator, or a card with a note.  (An element holds
    what the editor is given; what the editor then draws is not part of it.) *)
Inductive BlockElement : Type :=
| TextBlockEditor_element (block : Block)
| HeadingBlockEditor_element (block : Block)
| ImageBlockEditor_element (block : Block)
| Separator_element
| DatabaseBlockEditor_element (block : Block) (databases : list Database)
| Card_element (note : string).

(** The identifier [databases] where [BlockRenderer] reads it.  The component
    takes [block], [onUpdate], [onDelete], [onMoveUp], [onMoveDown],
    [onAddBlock], [canMoveUp] and [canMoveDown], and its only state is
    [isHovered]; the module declares no [databases] either (the state of that
    name belongs to [PageEditor], which does not hand it down).  So the
    identifier is not bound, and reading it throws a [ReferenceError], for
    which [None] stands. *)
Definition BlockRenderer_databases : option (list Database) := None.

(** The content part of [BlockRenderer]; [None] when evaluating it throws.
    Of the alternatives [block.type === ... && <...>] only the one of the
    type of the block is evaluated. *)
Definition BlockRenderer_content (block : Block) : option BlockElement :=
  match Block_type block with
  | text => Some (TextBlockEditor_element block)
  | heading => Some (HeadingBlockEditor_element block)
  | image => Some (ImageBlockEditor_element block)
  | divider => Some Separator_element
  | database =>
      match BlockRenderer_databases with
      | Some databases => Some (DatabaseBlockEditor_element block databases)
      | None => None
      end
  | gallery => Some (Card_element "Gallery block - Coming soon")
  | embed => Some (Card_element "Embed block - Coming soon")
  end.

(** The content blocks of [PageEditor]: [blocks.map] makes one
    [BlockRenderer] per block, in order.  The result holds what each of them
    returns; it is [None] when one of them throws, and the page is then not
    rendered. *)
Definition PageEditor_blocks (blocks : list Block) : option (list BlockElement) :=
  mapM BlockRenderer_content blocks.

(* ================================================================== *)
(** * Properties *)

Section Arrays.
Context {A : Type}.
Implicit Types (l : list A) (p : A → bool).

Lemma findIndex_range p l :
  findIndex p l = -1 ∨ (0 ≤ findIndex p l < Z.of_nat (length l)).
Proof.
  induction l as [|x l IH]; simpl; [by left|].
  destruct (p x); [right; lia|].
  destruct (Z.eqb_spec (findIndex p l) (-1)); [by left|].
  right. destruct IH; lia.
Qed.

Lemma findIndex_none p l :
  findIndex p l = -1 ↔ Forall (λ x, p x = false) l.
Proof.
  induction l as [|x l IH]; simpl.
  - split; [constructor|done].
  - destruct (p x) eqn:Hx.
    + split; [done|]. intros H. inversion H; congruence.
    + destruct (Z.eqb_spec (findIndex p l) (-1)) as [E|E].
      * split; [|done]. intros _. constructor; [done|]. by apply IH.
      * split.
        -- destruct (findIndex_range p l); lia.
        -- intros H. inversion H; subst. by apply IH in H3.
Qed.

Lemma findIndex_lookup p l :
  findIndex p l ≠ -1 →
  ∃ x, l !! Z.to_nat (findIndex p l) = Some x ∧ p x = true.
Proof.
  induction l as [|x l IH]; simpl; [done|].
  destruct (p x) eqn:Hx; [intros _; by exists x|].
  destruct (Z.eqb_spec (findIndex p l) (-1)) as [E|E]; [done|].
  intros _. destruct (IH E) as (y & Hy & Hp). exists y. split; [|done].
  destruct (findIndex_range p l) as [|R]; [done|].
  replace (Z.to_nat (findIndex p l + 1)) with (S (Z.to_nat (findIndex p l))) by lia.
  done.
Qed.

Lemma splice_start_in (len : nat) (i : Z) :
  0 ≤ i ≤ Z.of_nat len → splice_start len i = Z.to_nat i.
Proof.
  intros H. unfold splice_start.
  destruct (Z.ltb_spec i 0); [lia|]. f_equal. lia.
Qed.

Lemma splice_start_le (len : nat) (i : Z) : (splice_start len i ≤ len)%nat.
Proof. unfold splice_start. destruct (Z.ltb_spec i 0); lia. Qed.

Lemma splice_insert_length l i x : length (splice_insert l i x) = S (length l).
Proof.
  unfold splice_insert. pose proof (splice_start_le (length l) i).
  rewrite length_app, length_take. simpl. rewrite length_drop. lia.
Qed.

Lemma splice_insert_perm l i x : splice_insert l i x ≡ₚ x :: l.
Proof.
  unfold splice_insert. rewrite <- Permutation_middle.
  by rewrite take_drop.
Qed.

Lemma move_by_id_perm (get_id : A → string) l id dir l' :
  move_by_id get_id l id dir = Some l' → l' ≡ₚ l.
Proof.
  unfold move_by_id.
  set (p := λ x, String.eqb (get_id x) id).
  destruct (Z.eqb_spec (findIndex p l) (-1)) as [E|E]; [done|].
  destruct (findIndex_range p l) as [|R]; [done|].
  destruct (findIndex_lookup p l E) as (x & Hx & _).
  match goal with |- (if ?c then _ else _) = _ → _ => destruct c end; [done|].
  unfold splice_remove. rewrite splice_start_in by lia.
  set (i := Z.to_nat (findIndex p l)) in *.
  rewrite (drop_S l x i Hx). simpl.
  intros [= <-]. rewrite splice_insert_perm.
  rewrite <- (take_drop_middle l i x Hx) at 3.
  by rewrite <- Permutation_middle.
Qed.

Lemma move_by_id_absent (get_id : A → string) l id dir :
  id ∉ get_id <$> l → move_by_id get_id l id dir = None.
Proof.
  intros H. unfold move_by_id.
  set (p := λ x, String.eqb (get_id x) id).
  assert (findIndex p l = -1) as ->; [|done].
  apply findIndex_none, Forall_forall. intros x Hx. unfold p.
  apply String.eqb_neq. intros <-. apply H. by apply list_elem_of_fmap_2.
Qed.

Lemma move_by_id_first_up (get_id : A → string) x l :
  move_by_id get_id (x :: l) (get_id x) up = None.
Proof. unfold move_by_id. simpl. by rewrite String.eqb_refl. Qed.

Lemma findIndex_last p l x :
  Forall (λ y, p y = false) l → p x = true →
  findIndex p (l ++ [x]) = Z.of_nat (length l).
Proof.
  intros Hl Hx. induction Hl as [|y l Hy Hl IH]; simpl.
  - by rewrite Hx.
  - rewrite Hy, IH. destruct (Z.eqb_spec (Z.of_nat (length l)) (-1)); lia.
Qed.

Lemma move_by_id_last_down (get_id : A → string) l x :
  get_id x ∉ get_id <$> l →
  move_by_id get_id (l ++ [x]) (get_id x) down = None.
Proof.
  intros H. unfold move_by_id.
  rewrite findIndex_last.
  - destruct (Z.eqb_spec (Z.of_nat (length l)) (-1)); [lia|].
    rewrite length_app. simpl.
    match goal with |- (if ?c then _ else _) = _ => destruct c eqn:Hc end; [done|].
    apply orb_false_iff in Hc as [_ Hc].
    rewrite Z.geb_leb in Hc. apply Z.leb_gt in Hc. lia.
  - apply Forall_forall. intros y Hy. apply String.eqb_neq.
    intros Heq. apply H. rewrite <- Heq. by apply list_elem_of_fmap_2.
  - apply String.eqb_refl.
Qed.
End Arrays.

Section Blocks.
Implicit Types (blocks l : list Block) (b : Block).

Lemma reindex_length l : length (reindex l) = length l.
Proof. apply length_imap. Qed.

Lemma reindex_positions_ok l : positions_ok (reindex l).
Proof.
  unfold positions_ok, reindex. rewrite length_imap.
  apply list_eq. intros i.
  rewrite !list_lookup_fmap, list_lookup_imap.
  destruct (l !! i) as [b|] eqn:Hb; simpl.
  - apply lookup_lt_Some in Hb. by rewrite lookup_seq_lt.
  - apply lookup_ge_None in Hb. by rewrite lookup_seq_ge.
Qed.

Lemma reindex_body l : Block_body <$> reindex l = Block_body <$> l.
Proof.
  apply list_eq. intros i. unfold reindex.
  rewrite !list_lookup_fmap, list_lookup_imap.
  by destruct (l !! i).
Qed.

Lemma reindex_id l : Block_id <$> reindex l = Block_id <$> l.
Proof.
  apply list_eq. intros i. unfold reindex.
  rewrite !list_lookup_fmap, list_lookup_imap.
  by destruct (l !! i).
Qed.

Lemma addBlock_positions_ok now blocks type position :
  positions_ok (addBlock now blocks type position).
Proof. apply reindex_positions_ok. Qed.

Lemma deleteBlock_positions_ok blocks blockId :
  positions_ok (deleteBlock blocks blockId).
Proof. apply reindex_positions_ok. Qed.

Lemma moveBlock_cases blocks blockId dir :
  moveBlock blocks blockId dir = blocks ∨
  positions_ok (moveBlock blocks blockId dir).
Proof.
  unfold moveBlock. destruct (move_by_id _ _ _ _); [right|by left].
  apply reindex_positions_ok.
Qed.

Lemma apply_edit_cases blocks e :
  apply_edit blocks e = blocks ∨ positions_ok (apply_edit blocks e).
Proof.
  destruct e; simpl.
  - right. apply addBlock_positions_ok.
  - right. apply deleteBlock_positions_ok.
  - apply moveBlock_cases.
Qed.

Lemma apply_edit_invariant blocks e :
  positions_ok blocks → positions_ok (apply_edit blocks e).
Proof. intros H. by destruct (apply_edit_cases blocks e) as [->|]. Qed.

Lemma apply_edits_invariant es : ∀ blocks,
  positions_ok blocks → positions_ok (apply_edits blocks es).
Proof.
  induction es as [|e es IH]; intros blocks H; [done|].
  apply IH, apply_edit_invariant, H.
Qed.

Lemma apply_edits_cases es : ∀ blocks,
  apply_edits blocks es = blocks ∨ positions_ok (apply_edits blocks es).
Proof.
  induction es as [|e es IH]; intros blocks; [by left|].
  change (apply_edits blocks (e :: es)) with (apply_edits (apply_edit blocks e) es).
  destruct (apply_edit_cases blocks e) as [->|Hok]; [apply IH|].
  right. by apply apply_edits_invariant.
Qed.

Lemma splice_insert_body blocks i b :
  Block_body <$> splice_insert blocks i b =
  splice_insert (Block_body <$> blocks) i (Block_body b).
Proof.
  unfold splice_insert. rewrite length_fmap, fmap_app, fmap_cons.
  by rewrite fmap_take, fmap_drop.
Qed.
End Blocks.

(** ** The block list under edits *)

(** C1, as stated, fails: a move that returns early hands back the previous
    array as it is, so positions that were not contiguous stay so.  Here the
    only block has position 5 and is moved up. *)
Lemma positions_not_rederived_by_noop_move :
  let blocks := [mkBlock "a" text 5 (getDefaultContent text)] in
  apply_edits blocks [Move "a" up] = blocks ∧
  ¬ positions_ok (apply_edits blocks [Move "a" up]).
Proof. split; [reflexivity|]. vm_compute. discriminate. Qed.

(** C1 (amended): for every block list and every sequence of [addBlock],
    [deleteBlock] and [moveBlock] steps, the resulting positions are
    [0 .. n'-1] in array order, provided the positions were so at the start
    or the steps changed the list. *)
Theorem positions_after_edits (blocks : list Block) (es : list edit) :
  positions_ok blocks ∨ apply_edits blocks es ≠ blocks →
  positions_ok (apply_edits blocks es).
Proof.
  intros [Hok|Hne].
  - by apply apply_edits_invariant.
  - by destruct (apply_edits_cases es blocks).
Qed.

Lemma positions_after_edits_witness :
  let blocks := [mkBlock "a" text 5 (getDefaultContent text);
                 mkBlock "b" divider 9 (getDefaultContent divider)] in
  let es := [Move "a" up; Insert 1700000000000 heading (Some 1); Move "b" up; Remove "a"] in
  (positions_ok blocks ∨ apply_edits blocks es ≠ blocks) ∧
  positions_ok (apply_edits blocks es).
Proof.
  assert (H : apply_edits [mkBlock "a" text 5 (getDefaultContent text);
                 mkBlock "b" divider 9 (getDefaultContent divider)]
                [Move "a" up; Insert 1700000000000 heading (Some 1); Move "b" up; Remove "a"]
              ≠ [mkBlock "a" text 5 (getDefaultContent text);
                 mkBlock "b" divider 9 (getDefaultContent divider)]).
  { vm_compute. discriminate. }
  split; [right; exact H|].
  apply positions_after_edits. right. exact H.
Defined.

(** C5, as stated, fails: the second argument of [addBlock] is the index that
    the new block takes, not the position it follows.  With position 0 the new
    block comes first, before the block that was at position 0. *)
Lemma addBlock_position_is_the_new_index :
  let a := mkBlock "a" text 0 (getDefaultContent text) in
  let b := mkBlock "b" divider 1 (getDefaultContent divider) in
  Block_id <$> addBlock 1700000000000 [a; b] heading (Some 0) =
    ["block-1700000000000"; "a"; "b"] ∧
  addBlock 1700000000000 [a; b] heading (Some 0) !! 1%nat ≠
    Some (mkBlock "block-1700000000000" heading 1 (getDefaultContent heading)).
Proof. split; [reflexivity|]. vm_compute. discriminate. Qed.

(** C5 (amended): [addBlock(type, position)] makes a block with the default
    content of the tag and puts it at index [position] of the list, before
    the block that was there; without a position it puts it at the end.  The
    control of the block at [index] calls [addBlock(type, index + 1)], which
    puts the new block right after that block.  The other blocks keep id,
    type, content and order, positions are [0 .. n-1] afterwards, and the
    heading default is [{text: "", level: 1}].  The functions are total, so
    no tag makes them fail. *)
Theorem addBlock_inserts_default (now : Z) (blocks : list Block) (type : BlockType) :
  let body := ("block-" +:+ Z_to_string now, type, getDefaultContent type) in
  (∀ position : Z, 0 ≤ position ≤ Z.of_nat (length blocks) →
     Block_body <$> addBlock now blocks type (Some position) =
       take (Z.to_nat position) (Block_body <$> blocks) ++
       body :: drop (Z.to_nat position) (Block_body <$> blocks)) ∧
  (∀ index : nat,
     Block_body <$> BlockRenderer_onAddBlock now blocks index type =
       take (S index) (Block_body <$> blocks) ++
       body :: drop (S index) (Block_body <$> blocks)) ∧
  Block_body <$> AddBlockMenu_onAddBlock now blocks type = (Block_body <$> blocks) ++ [body] ∧
  (∀ position, positions_ok (addBlock now blocks type position) ∧
               length (addBlock now blocks type position) = S (length blocks)) ∧
  getDefaultContent heading = JObj [("text", JStr ""); ("level", JNum 1)].
Proof.
unfold BlockRenderer_onAddBlock, AddBlockMenu_onAddBlock, addBlock. simpl.
repeat split.
- intros position Hp. rewrite reindex_body, splice_insert_body.
  unfold splice_insert. by rewrite length_fmap, splice_start_in.
- intros index. rewrite reindex_body, splice_insert_body.
  unfold splice_insert. rewrite length_fmap.
  destruct (decide (S index ≤ length blocks)%nat) as [Hle|Hgt].
  + rewrite splice_start_in by lia.
    by replace (Z.to_nat (Z.of_nat index + 1)) with (S index) by lia.
  + unfold splice_start. destruct (Z.ltb_spec (Z.of_nat index + 1) 0); [lia|].
    replace (Z.to_nat _) with (length blocks) by lia.
    rewrite !take_ge, !drop_ge by (rewrite length_fmap; lia). done.
- rewrite reindex_body, splice_insert_body.
  unfold splice_insert. rewrite length_fmap, splice_start_in by lia.
  rewrite Nat2Z.id, take_ge, drop_ge by (rewrite length_fmap; lia). done.
- apply reindex_positions_ok.
- by rewrite reindex_length, splice_insert_length.
Qed.

Lemma addBlock_inserts_default_witness :
  let a := mkBlock "a" text 0 (getDefaultContent text) in
  let b := mkBlock "b" divider 1 (getDefaultContent divider) in
  (0 ≤ 1 ≤ Z.of_nat (length [a; b])) ∧
  Block_body <$> addBlock 1700000000000 [a; b] heading (Some 1) =
    take (Z.to_nat 1) (Block_body <$> [a; b]) ++
    ("block-" +:+ Z_to_string 1700000000000, heading, getDefaultContent heading)
      :: drop (Z.to_nat 1) (Block_body <$> [a; b]).
Proof.
assert (H : 0 ≤ 1 ≤ Z.of_nat (length [mkBlock "a" text 0 (getDefaultContent text);
                                      mkBlock "b" divider 1 (getDefaultContent divider)]))
  by (simpl; lia).
split; [exact H|].
exact (proj1 (addBlock_inserts_default 1700000000000 _ heading) 1 H).
Defined.

(** C6, as stated, fails when the id of the last element also occurs earlier:
    the element is looked up by id, the first one found is moved, and the
    sequence changes.  The same holds for a property list. *)
Lemma move_down_finds_first_of_repeated_id :
  let a := mkBlock "x" text 0 JNull in
  let b := mkBlock "y" divider 1 JNull in
  let c := mkBlock "x" heading 2 JNull in
  let p := mkProperty "x" "Name" p_text None None in
  let q := mkProperty "y" "Done" p_checkbox None None in
  let r := mkProperty "x" "Due" p_date None None in
  Block_type <$> moveBlock [a; b; c] (Block_id c) down = [divider; text; heading] ∧
  moveBlock [a; b; c] (Block_id c) down ≠ [a; b; c] ∧
  moveProperty [p; q; r] (Property_id r) down = [q; p; r].
Proof. split; [reflexivity|]. split; [|reflexivity]. vm_compute. discriminate. Qed.

(** C6 (amended): moving the first block up returns the list as it is, and
    moving the last block down does so when its id does not occur earlier in
    the list; the same holds for [moveProperty] on a property list. *)
Theorem move_at_boundary_is_noop :
  (∀ (b : Block) (l : list Block),
     moveBlock (b :: l) (Block_id b) up = b :: l) ∧
  (∀ (l : list Block) (b : Block),
     Block_id b ∉ Block_id <$> l →
     moveBlock (l ++ [b]) (Block_id b) down = l ++ [b]) ∧
  (∀ (p : DatabaseProperty) (l : list DatabaseProperty),
     moveProperty (p :: l) (Property_id p) up = p :: l) ∧
  (∀ (l : list DatabaseProperty) (p : DatabaseProperty),
     Property_id p ∉ Property_id <$> l →
     moveProperty (l ++ [p]) (Property_id p) down = l ++ [p]).
Proof.
repeat split.
- intros b l. unfold moveBlock. by rewrite move_by_id_first_up.
- intros l b H. unfold moveBlock. by rewrite move_by_id_last_down.
- intros p l. unfold moveProperty. by rewrite move_by_id_first_up.
- intros l p H. unfold moveProperty. by rewrite move_by_id_last_down.
Qed.

Lemma move_at_boundary_is_noop_witness :
  let a := mkBlock "a" text 0 JNull in
  let b := mkBlock "b" divider 1 JNull in
  let c := mkBlock "c" heading 2 JNull in
  (Block_id c ∉ Block_id <$> [a; b]) ∧
  moveBlock ([a; b] ++ [c]) (Block_id c) down = [a; b] ++ [c].
Proof.
assert (H : Block_id (mkBlock "c" heading 2 JNull) ∉
            Block_id <$> [mkBlock "a" text 0 JNull; mkBlock "b" divider 1 JNull]).
{ simpl. intros H. repeat (apply elem_of_cons in H as [H|H]; [discriminate H|]).
  by apply elem_of_nil in H. }
split; [exact H|].
exact (proj1 (proj2 move_at_boundary_is_noop) _ _ H).
Defined.

(** C10: [moveBlock] returns the same blocks: the ids, types and contents of
    the result are those of the input up to order, and with an id that is not
    in the list the list is returned unchanged. *)
Theorem moveBlock_keeps_blocks (blocks : list Block) (blockId : string) (dir : direction) :
  Block_body <$> moveBlock blocks blockId dir ≡ₚ Block_body <$> blocks ∧
  length (moveBlock blocks blockId dir) = length blocks ∧
  (blockId ∉ Block_id <$> blocks → moveBlock blocks blockId dir = blocks).
Proof.
  unfold moveBlock. repeat split.
  - destruct (move_by_id _ _ _ _) as [l'|] eqn:E; [|done].
    rewrite reindex_body. by rewrite (move_by_id_perm _ _ _ _ _ E).
  - destruct (move_by_id _ _ _ _) as [l'|] eqn:E; [|done].
    rewrite reindex_length. by rewrite (move_by_id_perm _ _ _ _ _ E).
  - intros H. by rewrite move_by_id_absent.
Qed.

Lemma moveBlock_keeps_blocks_witness :
  let a := mkBlock "a" text 0 JNull in
  let b := mkBlock "b" divider 1 JNull in
  ("z" ∉ Block_id <$> [a; b]) ∧ moveBlock [a; b] "z" down = [a; b].
Proof.
assert (H : "z" ∉ Block_id <$> [mkBlock "a" text 0 JNull; mkBlock "b" divider 1 JNull]).
{ simpl. intros H. repeat (apply elem_of_cons in H as [H|H]; [discriminate H|]).
  by apply elem_of_nil in H. }
split; [exact H|].
exact (proj2 (proj2 (moveBlock_keeps_blocks _ "z" down)) H).
Defined.

(** ** The empty entry form *)

Section EmptyEntry.
Implicit Types (properties : list DatabaseProperty) (k : string).

Lemma initialData_snoc properties p :
  initialData (properties ++ [p]) =
  assign (initialData properties) (Property_name p) (zero_value (Property_type p)).
Proof. unfold initialData. by rewrite foldl_snoc. Qed.

Lemma assign_proto (object : gmap string jsval) (value : jsval) :
  object !! "__proto__" = None → assign object "__proto__" value = object.
Proof.
intros H. unfold assign. rewrite H.
by rewrite bool_decide_false by (by intros [? ?]).
Qed.

Lemma assign_other (object : gmap string jsval) k (value : jsval) :
  k ≠ "__proto__" → assign object k value = <[k := value]> object.
Proof. intros H. unfold assign. apply String.eqb_neq in H. by rewrite H. Qed.

Lemma initialData_proto properties : initialData properties !! "__proto__" = None.
Proof.
  induction properties as [|p properties IH] using rev_ind; [done|].
  rewrite initialData_snoc.
  destruct (decide (Property_name p = "__proto__")) as [->|Hne].
  - by rewrite assign_proto.
  - rewrite assign_other by done. by rewrite lookup_insert_ne.
Qed.


Lemma initialData_dom properties :
  dom (initialData properties) =
  list_to_set (filter (λ k, k ≠ "__proto__") (Property_name <$> properties)).
Proof.
  induction properties as [|p properties IH] using rev_ind.
{ unfold initialData. simpl. by rewrite dom_empty_L. }
  rewrite initialData_snoc, fmap_app, filter_app, list_to_set_app_L, <- IH.
  simpl. rewrite filter_cons, filter_nil.
  destruct (decide (Property_name p = "__proto__")) as [Heq|Hne].
  - rewrite decide_False by (by intros H). rewrite Heq, assign_proto by apply initialData_proto.
    simpl. by rewrite (right_id_L ∅ (∪)).
  - rewrite decide_True by done. rewrite assign_other, dom_insert_L by done. simpl.
    rewrite (right_id_L ∅ (∪)). apply (comm_L (∪)).
Qed.

Lemma filter_no_proto (names : list string) :
  "__proto__" ∉ names → filter (λ k, k ≠ "__proto__") names = names.
Proof.
induction names as [|k names IH]; intros H; [done|].
apply not_elem_of_cons in H as [Hk H].
rewrite filter_cons, decide_True by done. by rewrite IH.
Qed.


End EmptyEntry.




(** ** Searching entries *)

Section Strings.
Implicit Types (s sub a b : string).

Lemma startsWith_spec sub : ∀ s,
  startsWith s sub = true ↔ ∃ b, s = sub +:+ b.
Proof.
induction sub as [|c sub IH]; intros s; simpl.
- split; [by exists s|done].
- destruct s as [|d s].
  + split; [done|]. by intros [b Hb].
  + rewrite andb_true_iff, IH, Ascii.eqb_eq. split.
    * intros [-> [b ->]]. by exists b.
    * intros [b [= -> ->]]. eauto.
Qed.

Lemma includes_spec s sub :
  includes s sub = true ↔ ∃ a b, s = a +:+ sub +:+ b.
Proof.
induction s as [|c s IH]; simpl; rewrite orb_true_iff.
- split.
  + intros [H|]; [|done]. apply startsWith_spec in H as [b Hb]. by exists "", b.
  + intros (a & b & H). left. destruct a; [|done].
    apply startsWith_spec. by exists b.
- rewrite IH, startsWith_spec. split.
  + intros [[b Hb]|(a & b & ->)]; [by exists "", b|by exists (String c a), b].
  + intros ([|c' a] & b & H); [left; by exists b|].
    right. injection H as -> ->. by exists a, b.
Qed.
End Strings.

(** C8, as stated, fails for the empty query: the filter keeps every entry
    then, also one none of whose properties holds a string. *)
Lemma empty_query_matches_every_entry :
  entry_matches "" [] (mkEntry "e1" ∅) = true ∧
  ¬ (∃ (p : DatabaseProperty) value,
       p ∈ [] ∧ (∅ : gmap string jsval) !! Property_name p = Some (JStr value) ∧
       includes (toLowerCase value) (toLowerCase "") = true).
Proof.
split; [reflexivity|]. intros (p & value & Hp & _). by apply elem_of_nil in Hp.
Qed.

(** C8 (amended): with a query that is not empty, an entry matches exactly
    when the value of some property of the schema is a string whose lower case
    contains the lower case of the query; values that are not strings never
    make a match; with the empty query every entry matches.  Over the entries
    [{name: "Apple"}] and [{name: "Banana"}] the query "app" keeps the first
    only. *)
Theorem entry_matches_iff (searchQuery : string) (properties : list DatabaseProperty)
    (entry : DatabaseEntry) :
  (searchQuery = "" → entry_matches searchQuery properties entry = true) ∧
  (searchQuery ≠ "" →
   (entry_matches searchQuery properties entry = true ↔
    ∃ p value, p ∈ properties ∧
      Entry_data entry !! Property_name p = Some (JStr value) ∧
      ∃ a b, toLowerCase value = a +:+ toLowerCase searchQuery +:+ b)) ∧
  (let name := mkProperty "p1" "name" p_text None None in
   let apple := mkEntry "e1" {[ "name" := JStr "Apple" ]} in
   let banana := mkEntry "e2" {[ "name" := JStr "Banana" ]} in
   filteredEntries [apple; banana] "app" [name] = [apple]).
Proof.
split; [by intros ->|]. split; [|reflexivity].
intros Hq. unfold entry_matches.
destruct searchQuery as [|c q]; [done|]. clear Hq.
rewrite existsb_exists. split.
- intros (p & Hp & H). apply list_elem_of_In in Hp.
  destruct (Entry_data entry !! Property_name p) as [[| | |value| |]|] eqn:E; try done.
  exists p, value. by rewrite <- includes_spec.
- intros (p & value & Hp & E & H). exists p. rewrite E, includes_spec.
  split; [by apply list_elem_of_In|done].
Qed.

Lemma entry_matches_iff_witness :
  let name := mkProperty "p1" "name" p_text None None in
  let apple := mkEntry "e1" {[ "name" := JStr "Apple" ]} in
  ("app" ≠ "") ∧
  (entry_matches "app" [name] apple = true ↔
   ∃ p value, p ∈ [name] ∧
     Entry_data apple !! Property_name p = Some (JStr value) ∧
     ∃ a b, toLowerCase value = a +:+ toLowerCase "app" +:+ b).
Proof.
assert (H : "app" ≠ "") by discriminate.
split; [exact H|].
exact (proj1 (proj2 (entry_matches_iff "app" _ _)) H).
Defined.

(** ** Saving a property *)

(** C9, as stated, fails: a select property saved while the dialog holds no
    option carries an [options] field that is present and empty. *)
Lemma select_saved_with_empty_options :
  PropertyEditorDialog_handleSave 1700000000000 None "Status" p_select false [] =
  Some (mkProperty "prop-1700000000000" "Status" p_select (Some []) (Some false)).
Proof. reflexivity. Qed.

(** C9 (amended): whenever the name is not blank the property editor saves a
    property, of the chosen type, whose [options] field is present exactly
    when the type is select or multiSelect; it then holds the options of the
    dialog, which may be none; for every other type the field is absent. *)
Theorem saved_property_options (now : Z) (property : option DatabaseProperty)
    (name : string) (type : PropertyType) (required : bool) (options : list string) :
  trim name ≠ "" →
  ∃ saved,
    PropertyEditorDialog_handleSave now property name type required options = Some saved ∧
    Property_type saved = type ∧
    Property_name saved = trim name ∧
    (is_Some (Property_options saved) ↔ type = p_select ∨ type = p_multiSelect) ∧
    (type = p_select ∨ type = p_multiSelect → Property_options saved = Some options) ∧
    (type ≠ p_select ∧ type ≠ p_multiSelect → Property_options saved = None).
Proof.
intros Hname. unfold PropertyEditorDialog_handleSave.
destruct (trim name) as [|c r] eqn:E; [done|].
eexists. split; [reflexivity|]. simpl.
destruct type; repeat split; try done; try (intros [? ?]; done);
  try (intros [?|?]; done); try (intros _; by eexists); try (by left); try (by right);
  try (intros [? ?]; congruence).
Qed.

Lemma saved_property_options_witness :
  trim " Tags " ≠ "" ∧
  ∃ saved,
    PropertyEditorDialog_handleSave 1700000000000 None " Tags " p_multiSelect true ["a"; "b"]
      = Some saved ∧
    Property_type saved = p_multiSelect ∧
    Property_name saved = trim " Tags " ∧
    (is_Some (Property_options saved) ↔ p_multiSelect = p_select ∨ p_multiSelect = p_multiSelect) ∧
    (p_multiSelect = p_select ∨ p_multiSelect = p_multiSelect →
     Property_options saved = Some ["a"; "b"]) ∧
    (p_multiSelect ≠ p_select ∧ p_multiSelect ≠ p_multiSelect → Property_options saved = None).
Proof.
assert (H : trim " Tags " ≠ "") by (vm_compute; discriminate).
split; [exact H|].
exact (saved_property_options 1700000000000 None " Tags " p_multiSelect true ["a"; "b"] H).
Defined.

(** ** Required properties in the entry form *)

(** C4, as stated, fails: the entry form computes no failing set.  Saving
    hands on a required text property that holds only blanks without
    reporting it, and what the form shows for a required property is the
    marker of its label, whatever the value: with the value "x" the property
    is marked although the spec's [validateEntry] lets it pass. *)
Lemma required_marker_ignores_value :
  let schema := [mkProperty "p1" "name" p_text None (Some true)] in
  let blank : gmap string jsval := {[ "name" := JStr "  " ]} in
  let data : gmap string jsval := {[ "name" := JStr "x" ]} in
  EntryEditorDialog_handleSave Some blank = Some blank ∧
  marked_properties schema data = ["p1"] ∧
  validateEntry_spec schema data = [] ∧
  marked_properties schema data ≠ validateEntry_spec schema data.
Proof. split; [reflexivity|]. by vm_compute. Qed.

(** C4 (amended): saving an entry hands the form data to [onSave] as it is,
    without any check; the form marks exactly the properties whose [required]
    is true, whatever the data; every property that the spec's [validateEntry]
    reports is among the marked ones, and a required text property is marked
    with the value "  " as well as with "x". *)
Theorem entry_form_marks_required (schema : list DatabaseProperty)
    (data : gmap string jsval) :
  (∀ R (onSave : gmap string jsval → R), EntryEditorDialog_handleSave onSave data = onSave data) ∧
  (∀ i, i ∈ marked_properties schema data ↔
        ∃ p, p ∈ schema ∧ Property_id p = i ∧ Property_required p = Some true) ∧
  (∀ data', marked_properties schema data' = marked_properties schema data) ∧
  (∀ i, i ∈ validateEntry_spec schema data → i ∈ marked_properties schema data) ∧
  (let schema1 := [mkProperty "p1" "name" p_text None (Some true)] in
   marked_properties schema1 {[ "name" := JStr "  " ]} = ["p1"] ∧
   validateEntry_spec schema1 {[ "name" := JStr "  " ]} = ["p1"] ∧
   marked_properties schema1 {[ "name" := JStr "x" ]} = ["p1"]).
Proof.
split; [done|]. split; [|split; [done|split]].
- intros i. unfold marked_properties. rewrite list_elem_of_fmap. split.
  + intros (p & -> & Hp). apply list_elem_of_filter in Hp as [Hr Hp].
    exists p. repeat split; [done|].
    unfold required_marker in Hr. by destruct (Property_required p) as [[]|].
  + intros (p & Hp & <- & Hr). exists p. split; [done|].
    apply list_elem_of_filter. split; [|done]. unfold required_marker. by rewrite Hr.
- intros i. unfold validateEntry_spec, marked_properties. rewrite !list_elem_of_fmap.
  intros (p & -> & Hp). apply list_elem_of_filter in Hp as [[Hr _] Hp].
  exists p. split; [done|]. by apply list_elem_of_filter.
- by vm_compute.
Qed.

(** ** JSON: parsing the text of a value gives the value back *)


Section Json.
Implicit Types (v : jsval) (s rest : string) (d : Decimal.uint).

Lemma JSON_write_arr x l rest :
  JSON_write (JArr (x :: l)) rest = String "[" (JSON_write x (write_elements l rest)).
Proof.
simpl. do 2 f_equal. induction l as [|y l IH]; simpl; [done|]. by rewrite IH.
Qed.

Lemma JSON_write_obj k x l rest :
  JSON_write (JObj ((k, x) :: l)) rest =
  String "{" (write_string k (String ":" (JSON_write x (write_members l rest)))).
Proof.
simpl. do 4 f_equal. induction l as [|[k' y] l IH]; simpl; [done|]. by rewrite IH.
Qed.

(** *** Strings *)

Lemma append_nil s : "" +:+ s = s.
Proof. reflexivity. Qed.

Lemma append_cons (c : ascii) s rest : String c s +:+ rest = String c (s +:+ rest).
Proof. reflexivity. Qed.

Lemma read_string_unit (c : ascii) s :
  read_string (write_unit c s) = cons_unit c (read_string s).
Proof. destruct c as [[] [] [] [] [] [] [] []]; reflexivity. Qed.

Lemma read_string_units s rest :
  read_string (write_units s (String "034" rest)) = Some (s, rest).
Proof.
induction s as [|c s IH]; simpl; [done|].
by rewrite read_string_unit, IH.
Qed.

(** *** Numbers *)

Lemma no_digit_nil : no_digit "".
Proof. reflexivity. Qed.

Lemma no_digit_cons (c : ascii) s :
  uint_of_char c (Some Decimal.Nil) = None → no_digit (String c s).
Proof.
unfold no_digit. cbn [read_digits]. destruct (read_digits s) as [d r]. intros H.
assert (uint_of_char c (Some d) = None) as ->; [|done].
destruct c as [[] [] [] [] [] [] [] []]; try done.
Qed.

Lemma read_digits_write d rest :
  no_digit rest →
  read_digits (NilEmpty.string_of_uint d +:+ rest) = (d, rest).
Proof.
intros H. induction d; cbn [NilEmpty.string_of_uint];
  rewrite ?append_cons, ?append_nil; cbn [read_digits]; rewrite ?IHd; done.
Qed.

Lemma canonical_to_uint (p : positive) : canonical (Pos.to_uint p).
Proof.
pose proof (DecimalPos.Unsigned.to_of (Pos.to_uint p)) as H.
rewrite DecimalPos.Unsigned.of_to in H. simpl in H.
pose proof (DecimalPos.Unsigned.to_uint_nonnil p) as Hnil.
destruct (Pos.to_uint p) as [|u|u|u|u|u|u|u|u|u|u] eqn:E; try done.
rewrite DecimalFacts.unorm_D0 in H. unfold Decimal.unorm in H.
destruct (Decimal.nzhead u) eqn:Hu; try (by destruct u).
exfalso. by apply DecimalFacts.nzhead_nonzero in Hu.
Qed.

Lemma read_number_pos d rest :
  canonical d → no_digit rest →
  read_number (NilEmpty.string_of_uint d +:+ rest) = Some (Z.of_uint d, rest).
Proof.
intros Hc Hr. unfold read_number.
assert (∃ c r, NilEmpty.string_of_uint d +:+ rest = String c r ∧ c ≠ "-"%char)
  as (c & r & E & Hm).
{ destruct d; try done; cbn [NilEmpty.string_of_uint]; rewrite append_cons;
    eexists _, _; (split; [reflexivity|done]). }
rewrite E.
assert ((match c with "-"%char => (true, r) | _ => (false, String c r) end)
        = (false, String c r)) as ->.
{ destruct c as [[] [] [] [] [] [] [] []]; try done. }
rewrite <- E, read_digits_write by done.
destruct d as [|u|u|u|u|u|u|u|u|u|u]; try done.
by destruct u.
Qed.

Lemma read_number_neg d rest :
  canonical d → no_digit rest →
  read_number (String "-" (NilEmpty.string_of_uint d +:+ rest)) = Some (- Z.of_uint d, rest).
Proof.
intros Hc Hr. unfold read_number. rewrite read_digits_write by done.
destruct d as [|u|u|u|u|u|u|u|u|u|u]; try done.
by destruct u.
Qed.

Lemma Z_to_string_cases (n : Z) :
  ∃ d, canonical d ∧
    ((Z_to_string n = NilEmpty.string_of_uint d ∧ n = Z.of_uint d) ∨
     (Z_to_string n = String "-" (NilEmpty.string_of_uint d) ∧ n = - Z.of_uint d)).
Proof.
unfold Z_to_string. destruct n as [|p|p]; simpl.
- exists (Decimal.D0 Decimal.Nil). split; [done|]. by left.
- exists (Pos.to_uint p). split; [apply canonical_to_uint|]. left.
  pose proof (canonical_to_uint p) as Hc. split.
  + unfold NilZero.string_of_uint. by destruct (Pos.to_uint p).
  + unfold Z.of_uint. by rewrite DecimalPos.Unsigned.of_to.
- exists (Pos.to_uint p). split; [apply canonical_to_uint|]. right.
  pose proof (canonical_to_uint p) as Hc. split.
  + unfold NilZero.string_of_uint. by destruct (Pos.to_uint p).
  + unfold Z.of_uint. by rewrite DecimalPos.Unsigned.of_to.
Qed.

Lemma read_number_write (n : Z) rest :
  no_digit rest → read_number (Z_to_string n +:+ rest) = Some (n, rest).
Proof.
intros Hr. destruct (Z_to_string_cases n) as (d & Hc & [[-> Hn]|[-> Hn]]).
- rewrite Hn. by apply read_number_pos.
- rewrite Hn, append_cons. by apply read_number_neg.
Qed.

Lemma Z_to_string_head (n : Z) rest :
  ∃ c r, Z_to_string n +:+ rest = String c r ∧ number_head c = true.
Proof.
destruct (Z_to_string_cases n) as (d & Hc & [[-> _]|[-> _]]).
- destruct d; try done; cbn [NilEmpty.string_of_uint]; rewrite append_cons;
    eexists _, _; (split; [reflexivity|done]).
- rewrite append_cons. eexists _, _. split; [reflexivity|done].
Qed.

(** *** Dispatch on the first character *)

Lemma parse_value_number fuel (c : ascii) r :
  number_head c = true →
  parse_value (S fuel) (String c r) =
  match read_number (String c r) with
  | Some (n, r') => Some (JNum n, r')
  | None => None
  end.
Proof.
intros H. destruct c as [[] [] [] [] [] [] [] []]; try discriminate H; reflexivity.
Qed.

Lemma parse_value_array fuel s :
  starts_value s = true →
  parse_value (S fuel) (String "[" s) =
  match parse_elements (parse_value fuel) fuel s with
  | Some (vs, r') => Some (JArr vs, r')
  | None => None
  end.
Proof.
destruct s as [|c r]; [done|]. simpl starts_value. intros H.
destruct c as [[] [] [] [] [] [] [] []]; try discriminate H; reflexivity.
Qed.

Lemma parse_value_object fuel s :
  parse_value (S fuel) (String "{" (String "034" s)) =
  match parse_members (parse_value fuel) fuel (String "034" s) with
  | Some (ms, r') => Some (JObj ms, r')
  | None => None
  end.
Proof. reflexivity. Qed.

Lemma JSON_write_head v rest : starts_value (JSON_write v rest) = true.
Proof.
destruct v as [|[]|n|s|[|x l]|[|[k x] l]]; try reflexivity.
destruct (Z_to_string_head n rest) as (c & r & E & H). simpl. rewrite E. simpl.
by destruct c as [[] [] [] [] [] [] [] []].
Qed.

(** *** The size of a value bounds the fuel it needs *)

Lemma jsize_pos v : (1 ≤ jsize v)%nat.
Proof. destruct v; simpl; lia. Qed.

Lemma jsize_arr_cons x l : jsize (JArr (x :: l)) = (jsize x + jsize (JArr l))%nat.
Proof. simpl. lia. Qed.

Lemma jsize_obj_cons k x l : jsize (JObj ((k, x) :: l)) = (jsize x + jsize (JObj l))%nat.
Proof. simpl. lia. Qed.

Lemma jsize_arr_length l : (S (length l) ≤ jsize (JArr l))%nat.
Proof.
induction l as [|x l IH]; [simpl; lia|].
rewrite jsize_arr_cons. pose proof (jsize_pos x). simpl length. lia.
Qed.

Lemma jsize_obj_length l : (S (length l) ≤ jsize (JObj l))%nat.
Proof.
induction l as [|[k x] l IH]; [simpl; lia|].
rewrite jsize_obj_cons. pose proof (jsize_pos x). simpl length. lia.
Qed.

(** *** Values *)

Lemma no_digit_elements l rest : no_digit (write_elements l rest).
Proof. destruct l; by apply no_digit_cons. Qed.

Lemma no_digit_members l rest : no_digit (write_members l rest).
Proof. destruct l as [|[k x] l]; by apply no_digit_cons. Qed.

Lemma parse_elements_write l : ∀ x n f rest,
  Forall parses_back (x :: l) →
  (jsize (JArr (x :: l)) ≤ S f)%nat → (length (x :: l) ≤ n)%nat →
  parse_elements (parse_value f) n (JSON_write x (write_elements l rest)) =
  Some (x :: l, rest).
Proof.
induction l as [|y l IH]; intros x n f rest Hall Hsize Hn;
  (destruct n as [|n]; [simpl in Hn; lia|]);
  inversion Hall as [|? ? Hx Hl]; subst;
  rewrite jsize_arr_cons in Hsize;
  match type of Hsize with context [jsize (JArr ?t)] => pose proof (jsize_pos (JArr t)) end;
  cbn [parse_elements]; rewrite Hx by (lia || apply no_digit_elements).
- reflexivity.
- cbn [write_elements skip_ws is_json_ws].
  rewrite IH; [done|done| |simpl in *; lia].
  rewrite jsize_arr_cons in *. pose proof (jsize_pos x). lia.
Qed.

Lemma parse_members_write l : ∀ k x n f rest,
  Forall (λ kv, parses_back kv.2) ((k, x) :: l) →
  (jsize (JObj ((k, x) :: l)) ≤ S f)%nat → (length ((k, x) :: l) ≤ n)%nat →
  parse_members (parse_value f) n
    (write_string k (String ":" (JSON_write x (write_members l rest)))) =
  Some ((k, x) :: l, rest).
Proof.
induction l as [|[k' y] l IH]; intros k x n f rest Hall Hsize Hn;
  (destruct n as [|n]; [simpl in Hn; lia|]);
  inversion Hall as [|? ? Hx Hl]; subst; simpl in Hx;
  rewrite jsize_obj_cons in Hsize;
  match type of Hsize with context [jsize (JObj ?t)] => pose proof (jsize_pos (JObj t)) end;
  unfold write_string; cbn [parse_members skip_ws is_json_ws];
  rewrite read_string_units; cbn [skip_ws is_json_ws];
  rewrite Hx by (lia || apply no_digit_members).
- reflexivity.
- cbn [write_members skip_ws is_json_ws].
  fold (write_string k' (String ":" (JSON_write y (write_members l rest)))).
  rewrite IH; [done|done| |simpl in *; lia].
  rewrite jsize_obj_cons in *. pose proof (jsize_pos x). lia.
Qed.

Lemma parse_value_write v : parses_back v.
Proof.
induction v as [|b|n|s|l IH|l IH] using jsval_ind; intros fuel rest Hfuel Hrest;
  (destruct fuel as [|f]; [simpl in Hfuel; lia|]).
- reflexivity.
- by destruct b.
- cbn [JSON_write].
  destruct (Z_to_string_head n rest) as (c & r & E & Hc).
  rewrite E, parse_value_number, <- E, read_number_write by done. done.
- cbn [JSON_write]. unfold write_string.
  change (parse_value (S f) (String "034" ?t)) with
    (match read_string t with Some (str, r') => Some (JStr str, r') | None => None end).
  by rewrite read_string_units.
- destruct l as [|x l]; [reflexivity|].
  rewrite JSON_write_arr, parse_value_array by apply JSON_write_head.
  rewrite parse_elements_write; [done|done|done|].
  pose proof (jsize_arr_length (x :: l)). lia.
- destruct l as [|[k x] l]; [reflexivity|].
  rewrite JSON_write_obj. unfold write_string at 1. rewrite parse_value_object.
  fold (write_string k (String ":" (JSON_write x (write_members l rest)))).
  rewrite parse_members_write; [done|done|done|].
  pose proof (jsize_obj_length ((k, x) :: l)). lia.
Qed.

(** *** The text is at least as long as the value is large *)

Lemma length_append s rest :
  String.length (s +:+ rest) = (String.length s + String.length rest)%nat.
Proof. induction s as [|c s IH]; [done|]. rewrite append_cons. simpl. by rewrite IH. Qed.

Lemma length_write_unit (c : ascii) rest :
  (S (String.length rest) ≤ String.length (write_unit c rest))%nat.
Proof. destruct c as [[] [] [] [] [] [] [] []]; simpl; lia. Qed.

Lemma length_write_units s rest :
  (String.length rest ≤ String.length (write_units s rest))%nat.
Proof.
induction s as [|c s IH]; simpl; [lia|].
pose proof (length_write_unit c (write_units s rest)). lia.
Qed.

Lemma length_write_string s rest :
  (2 + String.length rest ≤ String.length (write_string s rest))%nat.
Proof.
unfold write_string. simpl.
pose proof (length_write_units s (String "034" rest)). simpl in *. lia.
Qed.

Lemma length_Z_to_string (n : Z) : (1 ≤ String.length (Z_to_string n))%nat.
Proof.
destruct (Z_to_string_head n "") as (c & r & E & _).
rewrite <- (Nat.add_0_r (String.length _)).
change 0%nat with (String.length "") at 2. rewrite <- length_append, E. simpl. lia.
Qed.

Lemma length_JSON_write v : ∀ rest,
  (jsize v + String.length rest ≤ String.length (JSON_write v rest))%nat.
Proof.
induction v as [|b|n|s|l IH|l IH] using jsval_ind; intros rest.
- cbn [JSON_write jsize]. rewrite length_append. simpl. lia.
- destruct b; cbn [JSON_write jsize]; rewrite length_append; simpl; lia.
- cbn [JSON_write jsize]. rewrite length_append.
  pose proof (length_Z_to_string n). lia.
- cbn [JSON_write jsize]. pose proof (length_write_string s rest). lia.
- destruct l as [|x l]; [simpl; lia|].
  rewrite JSON_write_arr. inversion IH as [|? ? Hx Hl]; subst.
  assert (∀ rest, (jsize (JArr l) + String.length rest
                   ≤ String.length (write_elements l rest))%nat) as Hels.
  { clear Hx IH. induction Hl as [|y l Hy Hl IHl]; intros r; [simpl; lia|].
    rewrite jsize_arr_cons. cbn [write_elements String.length].
    specialize (Hy (write_elements l r)). specialize (IHl r). lia. }
  rewrite jsize_arr_cons. cbn [String.length].
  specialize (Hx (write_elements l rest)). specialize (Hels rest). lia.
- destruct l as [|[k x] l]; [simpl; lia|].
  rewrite JSON_write_obj. inversion IH as [|? ? Hx Hl]; subst. simpl in Hx.
  assert (∀ rest, (jsize (JObj l) + String.length rest
                   ≤ String.length (write_members l rest))%nat) as Hms.
  { clear Hx IH. induction Hl as [|[k' y] l Hy Hl IHl]; intros r; [simpl; lia|].
    rewrite jsize_obj_cons. cbn [write_members String.length].
    pose proof (length_write_string k'
      (String ":" (JSON_write y (write_members l r)))) as Hk.
    cbn [String.length] in Hk. simpl in Hy.
    specialize (Hy (write_members l r)). specialize (IHl r). lia. }
  rewrite jsize_obj_cons. cbn [String.length].
  pose proof (length_write_string k
    (String ":" (JSON_write x (write_members l rest)))) as Hk.
  cbn [String.length] in Hk.
  specialize (Hx (write_members l rest)). specialize (Hms rest). lia.
Qed.

(** [JSON.parse(JSON.stringify(v))] is [v]. *)
Lemma JSON_parse_stringify v : JSON_parse (JSON_stringify v) = Some v.
Proof.
unfold JSON_parse, JSON_stringify.
rewrite parse_value_write; [done| |apply no_digit_nil].
pose proof (length_JSON_write v ""). lia.
Qed.

Lemma JSON_stringify_nonempty v : ∃ c r, JSON_stringify v = String c r.
Proof.
pose proof (JSON_write_head v "") as H. unfold JSON_stringify.
destruct (JSON_write v "") as [|c r]; [done|]. by exists c, r.
Qed.
End Json.

(** ** JSON: the fuel of the parser *)

Section Fuel.
Implicit Types (s r : string) (pv : string → option (jsval * string)).

Lemma skip_ws_length s : (String.length (skip_ws s) ≤ String.length s)%nat.
Proof.
induction s as [|c s IH]; simpl; [lia|].
destruct (is_json_ws c); simpl; lia.
Qed.

Lemma cons_unit_some (c : ascii) o str r :
  cons_unit c o = Some (str, r) → ∃ str', o = Some (str', r).
Proof. destruct o as [[str' r']|]; [|done]. intros [= _ <-]. by exists str'. Qed.

Lemma read_string_shorter (n : nat) : ∀ s str r,
  (String.length s ≤ n)%nat → read_string s = Some (str, r) →
  (String.length r < String.length s)%nat.
Proof.
induction n as [|n IH]; intros s str r Hn H; (destruct s as [|c s]; [done|]).
{ simpl in Hn. lia. }
simpl in Hn.
assert (Hrec : ∀ t str', (String.length t ≤ String.length s)%nat →
          read_string t = Some (str', r) →
          (String.length r < String.length (String c s))%nat).
{ intros t str' Ht Hs. apply IH in Hs; [simpl; lia|lia]. }
destruct c as [[] [] [] [] [] [] [] []]; cbn [read_string nat_of_ascii] in H;
  try discriminate H;
  try (apply cons_unit_some in H as [str' H]; by apply (Hrec s str')).
- injection H as _ <-. simpl. lia.
- destruct s as [|e s]; [done|].
  destruct (unescape e) as [c|] eqn:He.
  + apply cons_unit_some in H as [str' H]. apply (Hrec s str'); [simpl; lia|done].
  + destruct e as [[] [] [] [] [] [] [] []]; try discriminate H; try discriminate He.
    destruct s as [|h1 [|h2 [|h3 [|h4 s]]]]; try discriminate H.
    destruct (hex4 h1 h2 h3 h4); [|done].
    apply cons_unit_some in H as [str' H]. apply (Hrec s str'); [simpl; lia|done].
Qed.

Lemma read_digits_length s :
  (String.length (read_digits s).2 ≤ String.length s)%nat ∧
  ((read_digits s).1 ≠ Decimal.Nil →
   (String.length (read_digits s).2 < String.length s)%nat).
Proof.
induction s as [|c s [IH1 IH2]]; [done|].
cbn [read_digits]. destruct (read_digits s) as [d rest]. cbn [fst snd] in IH1, IH2.
destruct (uint_of_char c (Some d)) as [d'|]; cbn [fst snd String.length];
  [|split; [lia|done]].
split; [lia|]. intros _. lia.
Qed.

Lemma read_number_shorter s (n : Z) r :
  read_number s = Some (n, r) → (String.length r < String.length s)%nat.
Proof.
unfold read_number.
set (split := match s with String "-" r0 => (true, r0) | _ => (false, s) end).
assert (String.length split.2 ≤ String.length s)%nat as Hs.
{ subst split. destruct s as [|c s]; [done|].
  destruct c as [[] [] [] [] [] [] [] []]; simpl; lia. }
destruct split as [negative s']. simpl in Hs.
pose proof (read_digits_length s') as [_ H2].
destruct (read_digits s') as [d rest]. simpl in H2.
intros H. assert (d ≠ Decimal.Nil) as Hd by (by intros ->).
apply H2 in Hd.
assert (r = rest) as ->; [|lia].
destruct d as [|u|u|u|u|u|u|u|u|u|u]; try (by injection H); try done.
destruct u; try done; by injection H.
Qed.

Lemma read_literal_length w (v v' : jsval) : ∀ s r,
  read_literal w v s = Some (v', r) → (String.length r ≤ String.length s)%nat.
Proof.
unfold read_literal. induction w as [|a w IH]; intros s r H.
- injection H as _ <-. lia.
- destruct s as [|b s]; [done|]. destruct (Ascii.eqb a b); [|done].
  apply IH in H. simpl. lia.
Qed.

Lemma parse_elements_shorter pv (n : nat) : consumes pv → ∀ s vs r,
  parse_elements pv n s = Some (vs, r) → (String.length r < String.length s)%nat.
Proof.
intros Hpv. induction n as [|n IH]; intros s vs r H; [done|].
cbn [parse_elements] in H.
destruct (pv s) as [[v r1]|] eqn:Hv; [|done]. apply Hpv in Hv.
pose proof (skip_ws_length r1) as Hws.
destruct (skip_ws r1) as [|c r2]; [done|]. simpl in Hws.
destruct c as [[] [] [] [] [] [] [] []]; try discriminate H;
  first [ injection H as _ <-; lia
        | destruct (parse_elements pv n r2) as [[vs' r3]|] eqn:E; [|done];
          injection H as _ <-; apply IH in E; lia ].
Qed.

Lemma parse_members_shorter pv (n : nat) : consumes pv → ∀ s ms r,
  parse_members pv n s = Some (ms, r) → (String.length r < String.length s)%nat.
Proof.
intros Hpv. induction n as [|n IH]; intros s ms r H; [done|].
cbn [parse_members] in H.
pose proof (skip_ws_length s) as Hws.
destruct (skip_ws s) as [|c r0]; [done|]. simpl in Hws.
destruct c as [[] [] [] [] [] [] [] []]; try discriminate H.
destruct (read_string r0) as [[k r1]|] eqn:Hk; [|done].
apply (read_string_shorter _ _ _ _ (le_n _)) in Hk.
pose proof (skip_ws_length r1) as Hws1.
destruct (skip_ws r1) as [|c r2]; [done|]. simpl in Hws1.
destruct c as [[] [] [] [] [] [] [] []]; try discriminate H.
destruct (pv r2) as [[v r3]|] eqn:Hv; [|done]. apply Hpv in Hv.
pose proof (skip_ws_length r3) as Hws3.
destruct (skip_ws r3) as [|c r4]; [done|]. simpl in Hws3.
destruct c as [[] [] [] [] [] [] [] []]; try discriminate H;
  first [ injection H as _ <-; lia
        | destruct (parse_members pv n r4) as [[ms' r5]|] eqn:E; [|done];
          injection H as _ <-; apply IH in E; lia ].
Qed.

Lemma parse_step_consumes pv (n : nat) : consumes pv → consumes (parse_step pv n).
Proof.
intros Hpv s v r H. unfold parse_step in H.
pose proof (skip_ws_length s) as Hws.
destruct (skip_ws s) as [|c r0]; [done|]. simpl in Hws.
assert (Hnum : ∀ t, match read_number t with
                    | Some (m, r') => Some (JNum m, r')
                    | None => None
                    end = Some (v, r) →
               (String.length r < String.length t)%nat).
{ intros t Ht. destruct (read_number t) as [[m r']|] eqn:E; [|done].
  injection Ht as _ <-. by apply read_number_shorter in E. }
assert (Hlit : ∀ w v0, read_literal w v0 r0 = Some (v, r) →
               (String.length r < String.length s)%nat).
{ intros w v0 Hl. apply read_literal_length in Hl. lia. }
assert (Hstr : match read_string r0 with
               | Some (str, r') => Some (JStr str, r')
               | None => None
               end = Some (v, r) → (String.length r < String.length s)%nat).
{ destruct (read_string r0) as [[str r']|] eqn:E; [|done].
  intros [= _ <-]. apply (read_string_shorter _ _ _ _ (le_n _)) in E. lia. }
pose proof (skip_ws_length r0) as Hws0.
assert (Harr : match skip_ws r0 with
               | String "]" r' => Some (JArr [], r')
               | _ => match parse_elements pv n r0 with
                      | Some (vs, r') => Some (JArr vs, r')
                      | None => None
                      end
               end = Some (v, r) → (String.length r < String.length s)%nat).
{ assert (Hel : match parse_elements pv n r0 with
                | Some (vs, r') => Some (JArr vs, r')
                | None => None
                end = Some (v, r) → (String.length r < String.length s)%nat).
  { destruct (parse_elements pv n r0) as [[vs r']|] eqn:E; [|done].
    intros [= _ <-]. apply parse_elements_shorter in E; [lia|done]. }
  destruct (skip_ws r0) as [|c1 r1]; [done|]. simpl in Hws0.
  destruct c1 as [[] [] [] [] [] [] [] []]; try done.
  intros [= _ <-]. lia. }
assert (Hobj : match skip_ws r0 with
               | String "}" r' => Some (JObj [], r')
               | _ => match parse_members pv n r0 with
                      | Some (ms, r') => Some (JObj ms, r')
                      | None => None
                      end
               end = Some (v, r) → (String.length r < String.length s)%nat).
{ assert (Hms : match parse_members pv n r0 with
                | Some (ms, r') => Some (JObj ms, r')
                | None => None
                end = Some (v, r) → (String.length r < String.length s)%nat).
  { destruct (parse_members pv n r0) as [[ms r']|] eqn:E; [|done].
    intros [= _ <-]. apply parse_members_shorter in E; [lia|done]. }
  destruct (skip_ws r0) as [|c1 r1]; [done|]. simpl in Hws0.
  destruct c1 as [[] [] [] [] [] [] [] []]; try done.
  intros [= _ <-]. lia. }
destruct c as [[] [] [] [] [] [] [] []];
  first [ by apply Hstr | by apply Harr | by apply Hobj | by eapply Hlit
        | apply Hnum in H; simpl in H; lia ].
Qed.

Lemma parse_value_consumes (fuel : nat) : consumes (parse_value fuel).
Proof.
induction fuel as [|f IH]; [by intros s v r H|].
apply parse_step_consumes, IH.
Qed.

Lemma parse_elements_fuel pv pv' : consumes pv → ∀ (n n' : nat) s,
  (∀ t, (String.length t ≤ String.length s)%nat → pv' t = pv t) →
  (String.length s < n)%nat → (n ≤ n')%nat →
  parse_elements pv' n' s = parse_elements pv n s.
Proof.
intros Hpv. induction n as [|n IH]; intros n' s Hagree Hn Hn'; [lia|].
destruct n' as [|n']; [lia|]. cbn [parse_elements].
rewrite Hagree by lia.
destruct (pv s) as [[v r1]|] eqn:Hv; [|done]. apply Hpv in Hv.
pose proof (skip_ws_length r1) as Hws.
destruct (skip_ws r1) as [|c r2]; [done|]. simpl in Hws.
rewrite (IH n' r2); [done| |lia|lia].
intros t Ht. apply Hagree. lia.
Qed.

Lemma parse_members_fuel pv pv' : consumes pv → ∀ (n n' : nat) s,
  (∀ t, (String.length t ≤ String.length s)%nat → pv' t = pv t) →
  (String.length s < n)%nat → (n ≤ n')%nat →
  parse_members pv' n' s = parse_members pv n s.
Proof.
intros Hpv. induction n as [|n IH]; intros n' s Hagree Hn Hn'; [lia|].
destruct n' as [|n']; [lia|]. cbn [parse_members].
pose proof (skip_ws_length s) as Hws.
destruct (skip_ws s) as [|c r0]; [done|]. simpl in Hws.
destruct (read_string r0) as [[k r1]|] eqn:Hk; [|done].
apply (read_string_shorter _ _ _ _ (le_n _)) in Hk.
pose proof (skip_ws_length r1) as Hws1.
destruct (skip_ws r1) as [|c1 r2]; [done|]. simpl in Hws1.
rewrite Hagree by lia.
destruct (pv r2) as [[v r3]|] eqn:Hv; [|done]. apply Hpv in Hv.
pose proof (skip_ws_length r3) as Hws3.
destruct (skip_ws r3) as [|c3 r4]; [done|]. simpl in Hws3.
rewrite (IH n' r4); [done| |lia|lia].
intros t Ht. apply Hagree. lia.
Qed.

Lemma parse_step_fuel pv pv' (n n' : nat) s :
  consumes pv →
  (∀ t, (String.length t < String.length s)%nat → pv' t = pv t) →
  (String.length s ≤ n)%nat → (n ≤ n')%nat →
  parse_step pv' n' s = parse_step pv n s.
Proof.
intros Hpv Hagree Hn Hn'. unfold parse_step.
pose proof (skip_ws_length s) as Hws.
destruct (skip_ws s) as [|c r]; [done|]. simpl in Hws.
rewrite (parse_elements_fuel pv pv' Hpv n n' r), (parse_members_fuel pv pv' Hpv n n' r);
  try lia; try done; intros t Ht; apply Hagree; lia.
Qed.

(** More fuel than the length of the text changes nothing. *)
Lemma parse_value_fuel (f : nat) : ∀ (f' : nat) s,
  (String.length s < f)%nat → (f ≤ f')%nat → parse_value f' s = parse_value f s.
Proof.
induction f as [|f IH]; intros f' s Hf Hf'; [lia|].
destruct f' as [|f']; [lia|]. cbn [parse_value].
apply parse_step_fuel; [apply parse_value_consumes| |lia|lia].
intros t Ht. apply IH; lia.
Qed.

(** [JSON_parse] gives the answer of the parser with any larger fuel. *)
Lemma JSON_parse_fuel s (f : nat) :
  (String.length s < f)%nat →
  parse_value f s = parse_value (S (String.length s)) s.
Proof. intros H. apply parse_value_fuel; lia. Qed.
End Fuel.

(** ** JSON: what the parser reads is JSON *)

Section Grammar.
Implicit Types (s r : string) (stack : list container) (p : position).

Lemma json_step_ws p stack (c : ascii) :
  waits p = true → is_json_ws c = true → json_step p stack c = Some (p, stack).
Proof.
intros Hp Hc. destruct p; try discriminate Hp; unfold json_step, end_value; by rewrite Hc.
Qed.

Lemma json_run_skip_ws p stack s :
  waits p = true → json_run p stack (skip_ws s) = json_run p stack s.
Proof.
intros Hp. induction s as [|c s IH]; [done|].
cbn [skip_ws]. destruct (is_json_ws c) eqn:Hc; [|done].
cbn [json_run]. by rewrite json_step_ws.
Qed.

Lemma skip_ws_head s (c : ascii) r : skip_ws s = String c r → is_json_ws c = false.
Proof.
induction s as [|a s IH]; [done|]. cbn [skip_ws].
destruct (is_json_ws a) eqn:Ha; [done|]. by intros [= <- _].
Qed.

Lemma goes_on_skip_ws s : goes_on (skip_ws s) = false → goes_on s = false.
Proof.
destruct s as [|c s]; [done|]. cbn [skip_ws].
destruct (is_json_ws c) eqn:Hc; [|done]. intros _.
by destruct c as [[] [] [] [] [] [] [] []].
Qed.

(** *** Literals *)

Lemma json_run_word (w : string) : ∀ (a : ascii) (v v' : jsval) s r stack,
  read_literal (String a w) v s = Some (v', r) →
  json_run (in_word (String a w)) stack s = json_run after_value stack r.
Proof.
unfold read_literal. induction w as [|b w IH]; intros a v v' s r stack H.
- destruct s as [|c s]; [done|]. cbn [json_run json_step].
  destruct (Ascii.eqb a c); [|done]. by injection H as _ <-.
- destruct s as [|c s]; [done|]. cbn [json_run json_step].
  destruct (Ascii.eqb a c); [|done]. by apply (IH b v v').
Qed.

(** *** Strings *)

Lemma json_step_unescape (e c : ascii) (key : bool) stack :
  unescape e = Some c → json_step (in_escape key) stack e = Some (in_string key, stack).
Proof. destruct e as [[] [] [] [] [] [] [] []]; try discriminate; reflexivity. Qed.

Lemma hex4_digits (h1 h2 h3 h4 c : ascii) :
  hex4 h1 h2 h3 h4 = Some c →
  is_Some (hex_value h1) ∧ is_Some (hex_value h2) ∧
  is_Some (hex_value h3) ∧ is_Some (hex_value h4).
Proof.
unfold hex4.
destruct (hex_value h1) as [[|?]|]; try done.
destruct (hex_value h2) as [[|?]|]; try done.
destruct (hex_value h3); try done. destruct (hex_value h4); try done.
Qed.

Lemma json_run_string (n : nat) : ∀ s str r (key : bool) stack,
  (String.length s ≤ n)%nat → read_string s = Some (str, r) →
  json_run (in_string key) stack s =
  json_run (if key then before_colon else after_value) stack r.
Proof.
induction n as [|n IH]; intros s str r key stack Hn H; (destruct s as [|c s]; [done|]).
{ simpl in Hn. lia. }
simpl in Hn.
assert (Hrec : ∀ t str', (String.length t ≤ String.length s)%nat →
          read_string t = Some (str', r) →
          json_run (in_string key) stack t =
          json_run (if key then before_colon else after_value) stack r).
{ intros t str' Ht Hs. apply (IH t str'); [lia|done]. }
destruct c as [[] [] [] [] [] [] [] []]; cbn [read_string nat_of_ascii] in H;
  try discriminate H;
  try (apply cons_unit_some in H as [str' H]; cbn [json_run json_step];
       by apply (Hrec s str')).
- by injection H as _ <-.
- destruct s as [|e s]; [done|].
  destruct (unescape e) as [c|] eqn:He.
  + apply cons_unit_some in H as [str' H].
    cbn [json_run].
    change (json_step (in_string key) stack "092") with (Some (in_escape key, stack)).
    cbn beta iota. rewrite (json_step_unescape e c) by done.
    apply (Hrec s str'); [simpl; lia|done].
  + destruct e as [[] [] [] [] [] [] [] []]; try discriminate H; try discriminate He.
    destruct s as [|h1 [|h2 [|h3 [|h4 s]]]]; try discriminate H.
    destruct (hex4 h1 h2 h3 h4) as [c|] eqn:Hh; [|done].
    apply hex4_digits in Hh as ([? E1] & [? E2] & [? E3] & [? E4]).
    apply cons_unit_some in H as [str' H].
    cbn [json_run json_step]. rewrite E1. cbn [json_run json_step]. rewrite E2.
    cbn [json_run json_step]. rewrite E3. cbn [json_run json_step]. rewrite E4.
    apply (Hrec s str'); [simpl; lia|done].
Qed.

(** *** Numbers *)

Lemma uint_of_char_digit (c : ascii) (d : Decimal.uint) :
  uint_of_char c (Some d) = None ↔ is_digit c = false.
Proof. destruct c as [[] [] [] [] [] [] [] []]; done. Qed.

Lemma read_digits_rest s :
  match (read_digits s).2 with
  | String c _ => is_digit c = false
  | EmptyString => True
  end.
Proof.
induction s as [|c s IH]; [done|].
cbn [read_digits]. destruct (read_digits s) as [d rest]. cbn [snd] in IH.
destruct (uint_of_char c (Some d)) as [d'|] eqn:E; [done|].
cbn [snd]. by apply uint_of_char_digit in E.
Qed.

Lemma read_digits_nil s : (read_digits s).1 = Decimal.Nil → (read_digits s).2 = s.
Proof.
destruct s as [|c s]; [done|].
cbn [read_digits]. destruct (read_digits s) as [d rest].
destruct (uint_of_char c (Some d)) as [d'|] eqn:E; [|done].
cbn [fst]. intros ->. by destruct c as [[] [] [] [] [] [] [] []].
Qed.

Lemma json_run_digits stack s :
  json_run in_integer stack s = json_run in_integer stack (read_digits s).2.
Proof.
induction s as [|c s IH]; [done|].
cbn [read_digits]. destruct (read_digits s) as [d rest]. cbn [snd] in IH.
destruct (uint_of_char c (Some d)) as [d'|] eqn:E; [|done].
cbn [snd]. rewrite <- IH.
assert (is_digit c = true) as Hc.
{ destruct (is_digit c) eqn:Hc; [done|]. apply (uint_of_char_digit c d) in Hc. congruence. }
cbn [json_run]. by destruct c as [[] [] [] [] [] [] [] []].
Qed.

(** Where a number ends, the text is read as after any other value. *)
Lemma json_run_number_end p stack r :
  p = after_zero ∨ p = in_integer →
  goes_on r = false →
  match r with String c _ => is_digit c = false | EmptyString => True end →
  json_run p stack r = json_run after_value stack r.
Proof.
intros Hp Hgo Hd. destruct r as [|c r].
- destruct Hp as [-> | ->]; by destruct stack.
- cbn [json_run].
  assert (json_step p stack c = json_step after_value stack c) as ->; [|done].
  destruct Hp as [-> | ->]; destruct c as [[] [] [] [] [] [] [] []];
    first [ discriminate Hgo | discriminate Hd | reflexivity ].
Qed.

(** The digits of a number, after its sign. *)
Lemma json_run_unsigned stack (c : ascii) s (d : Decimal.uint) r :
  read_digits (String c s) = (d, r) →
  match d with
  | Decimal.Nil => False
  | Decimal.D0 (Decimal.D0 _ | Decimal.D1 _ | Decimal.D2 _ | Decimal.D3 _ | Decimal.D4 _
               | Decimal.D5 _ | Decimal.D6 _ | Decimal.D7 _ | Decimal.D8 _ | Decimal.D9 _) => False
  | _ => True
  end →
  goes_on r = false →
  ∃ p, (match c with
        | "0"%char => Some (after_zero, stack)
        | _ => if is_digit c then Some (in_integer, stack) else None
        end = Some (p, stack)) ∧
       json_run p stack s = json_run after_value stack r.
Proof.
intros H Hd Hgo. cbn [read_digits] in H.
pose proof (read_digits_rest s) as Hrest.
pose proof (read_digits_nil s) as Hnil.
pose proof (json_run_digits stack s) as Hrun.
destruct (read_digits s) as [d0 rest]. cbn [fst snd] in Hrest, Hnil, Hrun.
destruct (uint_of_char c (Some d0)) as [d'|] eqn:E.
2:{ injection H as <- _. done. }
injection H as -> ->.
destruct c as [[] [] [] [] [] [] [] []]; try discriminate E;
  injection E as <-.
all: try (exists in_integer; split; [reflexivity|]; rewrite Hrun;
          by apply json_run_number_end; [right| |]).
exists after_zero. split; [reflexivity|].
assert (d0 = Decimal.Nil) as -> by (by destruct d0).
rewrite <- (Hnil eq_refl) in *.
by apply json_run_number_end; [left| |].
Qed.

Lemma json_run_number stack s (n : Z) r :
  read_number s = Some (n, r) → goes_on r = false →
  json_run before_value stack s = json_run after_value stack r.
Proof.
unfold read_number. intros H Hgo.
destruct s as [|c s].
{ done. }
assert (Hplain : c ≠ "-"%char →
  (let '(d, rest) := read_digits (String c s) in
   match d with
   | Decimal.Nil => None
   | Decimal.D0 (Decimal.D0 _ | Decimal.D1 _ | Decimal.D2 _ | Decimal.D3 _ | Decimal.D4 _
                | Decimal.D5 _ | Decimal.D6 _ | Decimal.D7 _ | Decimal.D8 _ | Decimal.D9 _) => None
   | _ => Some (Z.of_uint d, rest)
   end) = Some (n, r) →
  json_run before_value stack (String c s) = json_run after_value stack r).
{ intros Hc H'. destruct (read_digits (String c s)) as [d rest] eqn:E.
  assert (rest = r ∧ match d with
          | Decimal.Nil => False
          | Decimal.D0 (Decimal.D0 _ | Decimal.D1 _ | Decimal.D2 _ | Decimal.D3 _ | Decimal.D4 _
                       | Decimal.D5 _ | Decimal.D6 _ | Decimal.D7 _ | Decimal.D8 _ | Decimal.D9 _) => False
          | _ => True
          end) as [-> Hd].
  { destruct d as [|u|u|u|u|u|u|u|u|u|u]; try done; try (by injection H' as _ <-).
    destruct u; try done; by injection H' as _ <-. }
  destruct (json_run_unsigned stack c s d r E Hd Hgo) as (p & Hp & Hrun).
  rewrite <- Hrun. cbn [json_run].
  assert (json_step before_value stack c = Some (p, stack)) as ->; [|done].
  destruct c as [[] [] [] [] [] [] [] []]; try discriminate Hp; try done. }
destruct (decide (c = "-"%char)) as [->|Hc].
- destruct (read_digits s) as [d rest] eqn:E.
  assert (rest = r ∧ match d with
          | Decimal.Nil => False
          | Decimal.D0 (Decimal.D0 _ | Decimal.D1 _ | Decimal.D2 _ | Decimal.D3 _ | Decimal.D4 _
                       | Decimal.D5 _ | Decimal.D6 _ | Decimal.D7 _ | Decimal.D8 _ | Decimal.D9 _) => False
          | _ => True
          end) as [-> Hd].
  { destruct d as [|u|u|u|u|u|u|u|u|u|u]; try done; try (by injection H as _ <-).
    destruct u; try done; by injection H as _ <-. }
  destruct s as [|c s]; [by injection E as <- _|].
  destruct (json_run_unsigned stack c s d r E Hd Hgo) as (p & Hp & Hrun).
  rewrite <- Hrun. cbn [json_run]. change (json_step before_value stack "-") with (Some (after_minus, stack)).
  cbn [json_run].
  assert (json_step after_minus stack c = Some (p, stack)) as ->; [|done].
  exact Hp.
- apply Hplain; [done|].
  destruct c as [[] [] [] [] [] [] [] []]; try done.
Qed.

(** *** Arrays, objects and values *)

Lemma json_run_elements pv (n : nat) : reads_value pv → ∀ s vs r stack,
  parse_elements pv n s = Some (vs, r) →
  json_run before_value (in_array :: stack) s = json_run after_value stack r.
Proof.
intros Hpv. induction n as [|n IH]; intros s vs r stack H; [done|].
cbn [parse_elements] in H.
destruct (pv s) as [[v r1]|] eqn:Hv; [|done].
destruct (skip_ws r1) as [|c r2] eqn:Hws; [done|].
assert (goes_on r1 = false) as Hgo.
{ apply goes_on_skip_ws. rewrite Hws.
  destruct c as [[] [] [] [] [] [] [] []]; try discriminate H; done. }
rewrite (Hpv _ _ _ _ Hv Hgo), <- (json_run_skip_ws after_value) by done. rewrite Hws.
destruct c as [[] [] [] [] [] [] [] []]; try discriminate H;
  first [ injection H as _ <-; reflexivity
        | destruct (parse_elements pv n r2) as [[vs' r3]|] eqn:E; [|done];
          injection H as _ <-; cbn [json_run];
          change (json_step after_value (in_array :: stack) ",")
            with (Some (before_value, in_array :: stack)); cbn beta iota;
          by apply (IH r2 vs') ].
Qed.

Lemma json_run_members pv (n : nat) : reads_value pv → ∀ s ms r stack,
  parse_members pv n s = Some (ms, r) →
  json_run before_key (in_object :: stack) s = json_run after_value stack r.
Proof.
intros Hpv. induction n as [|n IH]; intros s ms r stack H; [done|].
cbn [parse_members] in H.
rewrite <- (json_run_skip_ws before_key) by done.
destruct (skip_ws s) as [|c r0]; [done|].
destruct c as [[] [] [] [] [] [] [] []]; try discriminate H.
destruct (read_string r0) as [[k r1]|] eqn:Hk; [|done].
cbn [json_run]. change (json_step before_key (in_object :: stack) "034")
  with (Some (in_string true, in_object :: stack)). cbn beta iota.
rewrite (json_run_string _ r0 k r1 true _ (le_n _) Hk).
rewrite <- (json_run_skip_ws before_colon) by done.
destruct (skip_ws r1) as [|c r2]; [done|].
destruct c as [[] [] [] [] [] [] [] []]; try discriminate H.
cbn [json_run]. change (json_step before_colon (in_object :: stack) ":")
  with (Some (before_value, in_object :: stack)). cbn beta iota.
destruct (pv r2) as [[v r3]|] eqn:Hv; [|done].
destruct (skip_ws r3) as [|c r4] eqn:Hws; [done|].
assert (goes_on r3 = false) as Hgo.
{ apply goes_on_skip_ws. rewrite Hws.
  destruct c as [[] [] [] [] [] [] [] []]; try discriminate H; done. }
rewrite (Hpv _ _ _ _ Hv Hgo), <- (json_run_skip_ws after_value) by done. rewrite Hws.
destruct c as [[] [] [] [] [] [] [] []]; try discriminate H;
  first [ injection H as _ <-; reflexivity
        | destruct (parse_members pv n r4) as [[ms' r5]|] eqn:E; [|done];
          injection H as _ <-; cbn [json_run];
          change (json_step after_value (in_object :: stack) ",")
            with (Some (before_key, in_object :: stack)); cbn beta iota;
          by apply (IH r4 ms') ].
Qed.

Lemma json_run_array_start stack s :
  (∀ r, skip_ws s ≠ String "]" r) →
  json_run array_start (in_array :: stack) s = json_run before_value (in_array :: stack) s.
Proof.
intros H.
rewrite <- (json_run_skip_ws array_start), <- (json_run_skip_ws before_value) by done.
destruct (skip_ws s) as [|c r] eqn:E; [done|].
apply skip_ws_head in E. cbn [json_run].
assert (json_step array_start (in_array :: stack) c =
        json_step before_value (in_array :: stack) c) as ->; [|done].
destruct c as [[] [] [] [] [] [] [] []]; try discriminate E; try reflexivity.
by destruct (H r).
Qed.

Lemma json_run_object_start stack s :
  (∀ r, skip_ws s ≠ String "}" r) →
  json_run object_start (in_object :: stack) s = json_run before_key (in_object :: stack) s.
Proof.
intros H.
rewrite <- (json_run_skip_ws object_start), <- (json_run_skip_ws before_key) by done.
destruct (skip_ws s) as [|c r] eqn:E; [done|].
apply skip_ws_head in E. cbn [json_run].
assert (json_step object_start (in_object :: stack) c =
        json_step before_key (in_object :: stack) c) as ->; [|done].
destruct c as [[] [] [] [] [] [] [] []]; try discriminate E; try reflexivity.
by destruct (H r).
Qed.

Lemma json_run_step pv (n : nat) : reads_value pv → reads_value (parse_step pv n).
Proof.
intros Hpv s v r stack H Hgo. unfold parse_step in H.
rewrite <- (json_run_skip_ws before_value) by done.
destruct (skip_ws s) as [|c r0] eqn:Hs; [done|].
assert (Hnum : match read_number (String c r0) with
               | Some (m, r') => Some (JNum m, r')
               | None => None
               end = Some (v, r) →
               json_run before_value stack (String c r0) = json_run after_value stack r).
{ destruct (read_number (String c r0)) as [[m r']|] eqn:E; [|done].
  intros [= _ <-]. by apply (json_run_number stack _ m). }
assert (Hlit : ∀ (a : ascii) w v0, read_literal (String a w) v0 r0 = Some (v, r) →
               json_run (in_word (String a w)) stack r0 = json_run after_value stack r).
{ intros a w v0. apply json_run_word. }
assert (Hstr : match read_string r0 with
               | Some (str, r') => Some (JStr str, r')
               | None => None
               end = Some (v, r) →
               json_run (in_string false) stack r0 = json_run after_value stack r).
{ destruct (read_string r0) as [[str r']|] eqn:E; [|done].
  intros [= _ <-]. apply (json_run_string _ r0 str r' false _ (le_n _) E). }
assert (Harr : match skip_ws r0 with
               | String "]" r' => Some (JArr [], r')
               | _ => match parse_elements pv n r0 with
                      | Some (vs, r') => Some (JArr vs, r')
                      | None => None
                      end
               end = Some (v, r) →
               json_run array_start (in_array :: stack) r0 = json_run after_value stack r).
{ assert (Hel : match parse_elements pv n r0 with
                | Some (vs, r') => Some (JArr vs, r')
                | None => None
                end = Some (v, r) →
                json_run before_value (in_array :: stack) r0 = json_run after_value stack r).
  { destruct (parse_elements pv n r0) as [[vs r']|] eqn:E; [|done].
    intros [= _ <-]. by apply (json_run_elements pv n Hpv r0 vs). }
  destruct (skip_ws r0) as [|c1 r1] eqn:E1.
  { intros H1. rewrite json_run_array_start; [by apply Hel|]. by rewrite E1. }
  destruct (decide (c1 = "]"%char)) as [->|Hc1].
  { intros [= _ <-]. rewrite <- (json_run_skip_ws array_start), E1 by done. reflexivity. }
  intros H1. rewrite json_run_array_start.
  - apply Hel. destruct c1 as [[] [] [] [] [] [] [] []]; done.
  - rewrite E1. intros r' [= ? _]. done. }
assert (Hobj : match skip_ws r0 with
               | String "}" r' => Some (JObj [], r')
               | _ => match parse_members pv n r0 with
                      | Some (ms, r') => Some (JObj ms, r')
                      | None => None
                      end
               end = Some (v, r) →
               json_run object_start (in_object :: stack) r0 = json_run after_value stack r).
{ assert (Hms : match parse_members pv n r0 with
                | Some (ms, r') => Some (JObj ms, r')
                | None => None
                end = Some (v, r) →
                json_run before_key (in_object :: stack) r0 = json_run after_value stack r).
  { destruct (parse_members pv n r0) as [[ms r']|] eqn:E; [|done].
    intros [= _ <-]. by apply (json_run_members pv n Hpv r0 ms). }
  destruct (skip_ws r0) as [|c1 r1] eqn:E1.
  { intros H1. rewrite json_run_object_start; [by apply Hms|]. by rewrite E1. }
  destruct (decide (c1 = "}"%char)) as [->|Hc1].
  { intros [= _ <-]. rewrite <- (json_run_skip_ws object_start), E1 by done. reflexivity. }
  intros H1. rewrite json_run_object_start.
  - apply Hms. destruct c1 as [[] [] [] [] [] [] [] []]; done.
  - rewrite E1. intros r' [= ? _]. done. }
destruct c as [[] [] [] [] [] [] [] []];
  first [ by apply Hstr | by apply Harr | by apply Hobj | by eapply Hlit
        | by apply Hnum ].
Qed.

Lemma json_run_value (fuel : nat) : reads_value (parse_value fuel).
Proof.
induction fuel as [|f IH]; [by intros s v r stack H|].
apply json_run_step, IH.
Qed.

(** What [JSON_parse] reads is JSON. *)
Lemma JSON_parse_valid s v : JSON_parse s = Some v → JSON_valid s = true.
Proof.
unfold JSON_parse, JSON_valid.
destruct (parse_value (S (String.length s)) s) as [[v' rest]|] eqn:E; [|done].
destruct (skip_ws rest) as [|c r] eqn:Hws; [|done]. intros _.
rewrite (json_run_value _ _ _ _ [] E).
- by rewrite <- (json_run_skip_ws after_value), Hws.
- apply goes_on_skip_ws. by rewrite Hws.
Qed.

(** Only a text that begins with a bracket is read as an array. *)
Lemma JSON_parse_array s l : JSON_parse s = Some (JArr l) → ∃ r, skip_ws s = String "[" r.
Proof.
unfold JSON_parse. cbn [parse_value]. unfold parse_step.
destruct (skip_ws s) as [|c r0]; [done|].
assert (Hlit : ∀ w v0 t, v0 ≠ JArr l →
          match read_literal w v0 r0 with
          | Some (v, rest) => match skip_ws rest with "" => Some v | String _ _ => None end
          | None => None
          end = Some (JArr l) → t).
{ intros w v0 t Hv0. destruct (read_literal w v0 r0) as [[v rest]|] eqn:E; [|done].
  assert (v = v0) as ->.
  { clear -E. unfold read_literal in E. revert r0 E.
    induction w as [|a w IH]; intros r0 E; [by injection E as <- _|].
    destruct r0 as [|b r0]; [done|]. destruct (Ascii.eqb a b); [|done]. by apply IH in E. }
  destruct (skip_ws rest); [|done]. by intros [= ?]. }
destruct c as [[] [] [] [] [] [] [] []];
  try (intros _; by eexists);
  try (by apply Hlit);
  try (destruct (read_number _) as [[m r']|]; [|done]; by destruct (skip_ws r'));
  try (destruct (read_string r0) as [[str r']|]; [|done]; by destruct (skip_ws r')).
destruct (skip_ws r0) as [|c1 r1].
{ destruct (parse_members _ _ r0) as [[ms r']|]; [|done]. by destruct (skip_ws r'). }
destruct c1 as [[] [] [] [] [] [] [] []];
  try (destruct (parse_members _ _ _) as [[ms r']|]; [|done]; by destruct (skip_ws r')).
by destruct (skip_ws r1).
Qed.
End Grammar.


(** ** Loading and saving a page *)

Lemma BlockType_of_name_name (type : BlockType) :
  BlockType_of_name (BlockType_name type) = Some type.
Proof. by destruct type. Qed.

Lemma Block_of_js_to_js (b : Block) : Block_of_js (Block_to_js b) = Some b.
Proof.
destruct b as [i t p c]. unfold Block_of_js, Block_to_js. cbn.
by rewrite BlockType_of_name_name.
Qed.

(** C3: what [loadPageData] makes of the content written by [handleSave] is
    the block list that was saved: the parsed array holds the same objects,
    and reading id, type, position and content from each gives the saved block
    back, positions included.  (The requests for databases and assets that
    follow in the same [try] are taken not to throw.) *)
Theorem load_after_save (blocks : list Block) :
  JSON_parse (PageEditor_handleSave blocks) = Some (JArr (Block_to_js <$> blocks)) ∧
  loadPageData (Some (PageEditor_handleSave blocks)) false = Block_to_js <$> blocks ∧
  Block_of_js <$> loadPageData (Some (PageEditor_handleSave blocks)) false = Some <$> blocks.
Proof.
assert (loadPageData (Some (PageEditor_handleSave blocks)) false = Block_to_js <$> blocks) as H.
{ unfold loadPageData, PageEditor_handleSave.
  destruct (JSON_stringify_nonempty (JArr (Block_to_js <$> blocks))) as (c & r & E).
  rewrite E, <- E.
  by rewrite (JSON_parse_valid _ _ (JSON_parse_stringify _)), JSON_parse_stringify. }
split; [apply JSON_parse_stringify|]. split; [done|].
rewrite H, <- list_fmap_compose. apply list_fmap_ext.
intros i b _. apply Block_of_js_to_js.
Qed.

(** C2, as stated, fails: empty content and [null] give no block at all, and
    content that is not JSON gives a text block that holds this content. *)
Lemma empty_content_loads_no_block :
  loadPageData (Some "") false = [] ∧
  loadPageData None false = [] ∧
  JSON_valid "Welcome" = false ∧
  Block_of_js <$> loadPageData (Some "Welcome") false =
    [Some (mkBlock "block-1" text 0
             (JObj [("text", JStr "Welcome"); ("format", JStr "paragraph")]))].
Proof. by vm_compute. Qed.

(** C2 (amended): [loadPageData] always yields a block list (it is a total
    function).  With the empty string or [null] as content the list is empty.
    Content that is not JSON yields exactly one block: id "block-1", tag
    text, position 0, format paragraph, and the stored content as its text.
    JSON that is not an array (its first character after white space is not
    a bracket) yields the empty list, a number with a fraction such as [1.5]
    included.  A text that the parser reads is JSON; it yields the elements
    of the array that is read, and the empty list when another value is
    read.  The same single text block replaces the list when a later request
    of the load throws. *)
Theorem loadPageData_cases (content : option string) (resources_throw : bool) :
  (content = None ∨ content = Some "" → loadPageData content false = []) ∧
  (∀ c, content = Some c → c ≠ "" → JSON_valid c = false →
        loadPageData content resources_throw = [fallback_block content]) ∧
  (∀ c, content = Some c → JSON_valid c = true → (∀ r, skip_ws c ≠ String "[" r) →
        loadPageData content false = []) ∧
  (∀ c v, content = Some c → JSON_parse c = Some v →
        JSON_valid c = true ∧
        loadPageData content false = match v with JArr l => l | _ => [] end) ∧
  loadPageData content true = [fallback_block content] ∧
  Block_of_js (fallback_block content) =
    Some (mkBlock "block-1" text 0
            (JObj [("text", JStr (default "" content)); ("format", JStr "paragraph")])) ∧
  JSON_valid "1.5" = true ∧ loadPageData (Some "1.5") false = [].
Proof.
split; [by intros [->| ->]|]. split; [|split; [|split; [|split]]].
- intros c -> Hc Hv. unfold loadPageData. destruct c; [done|]. by rewrite Hv.
- intros c -> Hv Harr. unfold loadPageData. destruct c as [|a c]; [done|]. rewrite Hv.
  destruct (JSON_parse (String a c)) as [[| | | |l|]|] eqn:Hp; try done.
  apply JSON_parse_array in Hp as [r Hr]. by destruct (Harr r).
- intros c v -> Hp. pose proof (JSON_parse_valid _ _ Hp) as Hv. split; [done|].
  unfold loadPageData. destruct c as [|a c]; [done|]. rewrite Hv, Hp. by destruct v.
- unfold loadPageData. destruct content as [[|a c]|]; try done.
  by destruct (JSON_valid (String a c)).
- split; [done|]. by vm_compute.
Qed.

Lemma loadPageData_cases_witness :
  (Some "{oops" = Some "{oops" ∧ "{oops" ≠ "" ∧ JSON_valid "{oops" = false) ∧
  loadPageData (Some "{oops") false = [fallback_block (Some "{oops")].
Proof.
assert (H1 : "{oops" ≠ "") by discriminate.
assert (H2 : JSON_valid "{oops" = false) by (vm_compute; reflexivity).
split; [by repeat split|].
exact (proj1 (proj2 (loadPageData_cases (Some "{oops") false)) "{oops" eq_refl H1 H2).
Defined.

Lemma entry_form_marks_required_witness :
  let schema := [mkProperty "p1" "name" p_text None (Some true);
                 mkProperty "p2" "done" p_checkbox None None] in
  let data : gmap string jsval := {[ "name" := JStr "  " ]} in
  ("p1" ∈ validateEntry_spec schema data) ∧ "p1" ∈ marked_properties schema data.
Proof.
assert (H : "p1" ∈ validateEntry_spec
              [mkProperty "p1" "name" p_text None (Some true);
               mkProperty "p2" "done" p_checkbox None None]
              ({[ "name" := JStr "  " ]} : gmap string jsval)).
{ vm_compute. apply list_elem_of_here. }
split; [exact H|].
exact (proj1 (proj2 (proj2 (proj2 (entry_form_marks_required _ _)))) "p1" H).
Defined.

(* ================================================================== *)
(** * Further properties of the components *)

(** ** Moving an element by its id *)

Section Moves.
Context {A : Type} (get_id : A → string).
Implicit Types (l : list A) (x a b : A).

Lemma findIndex_at l : ∀ (i : nat) x,
  NoDup (get_id <$> l) → l !! i = Some x →
  findIndex (λ y, String.eqb (get_id y) (get_id x)) l = Z.of_nat i.
Proof.
induction l as [|y l IH]; intros i x Hnd Hx; [done|].
rewrite fmap_cons in Hnd. apply NoDup_cons in Hnd as [Hy Hnd].
destruct i as [|i]; simpl in *.
- injection Hx as ->. by rewrite String.eqb_refl.
- assert (String.eqb (get_id y) (get_id x) = false) as ->.
  { apply String.eqb_neq. intros Heq. apply Hy. rewrite Heq.
    apply list_elem_of_fmap_2. by eapply list_elem_of_lookup_2. }
  rewrite (IH i x Hnd Hx).
  destruct (Z.eqb_spec (Z.of_nat i) (-1)); lia.
Qed.

Lemma splice_remove_at l (i : nat) x :
  l !! i = Some x →
  splice_remove l (Z.of_nat i) = ([x], take i l ++ drop (S i) l).
Proof.
intros Hx. unfold splice_remove.
pose proof (lookup_lt_Some _ _ _ Hx).
rewrite splice_start_in, Nat2Z.id by lia.
by rewrite (drop_S l x i Hx).
Qed.

Lemma swap_at l (i : nat) a b :
  l !! i = Some a → l !! S i = Some b →
  l = take i l ++ a :: b :: drop (S (S i)) l.
Proof.
intros Ha Hb. rewrite <- (take_drop i l) at 1. f_equal.
by rewrite (drop_S l a i Ha), (drop_S l b (S i) Hb).
Qed.

Lemma move_by_id_swap_up l (i : nat) a b :
  NoDup (get_id <$> l) → l !! i = Some a → l !! S i = Some b →
  move_by_id get_id l (get_id b) up = Some (take i l ++ b :: a :: drop (S (S i)) l).
Proof.
intros Hnd Ha Hb. unfold move_by_id.
pose proof (lookup_lt_Some _ _ _ Hb) as Hlen.
rewrite (findIndex_at l (S i) b Hnd Hb).
destruct (Z.eqb_spec (Z.of_nat (S i)) (-1)); [lia|].
replace (Z.of_nat (S i) - 1) with (Z.of_nat i) by lia.
destruct (Z.ltb_spec (Z.of_nat i) 0); [lia|].
rewrite Z.geb_leb. destruct (Z.leb_spec (Z.of_nat (length l)) (Z.of_nat i)); [lia|].
simpl orb. cbv iota. rewrite (splice_remove_at l (S i) b Hb).
f_equal. unfold splice_insert.
rewrite (take_S_r l i a Ha), <- app_assoc. simpl.
assert (length (take i l) = i) as Hti by (rewrite length_take; lia).
rewrite splice_start_in, Nat2Z.id
  by (rewrite length_app, Hti; simpl; lia).
by rewrite take_app_length', drop_app_length' by done.
Qed.

Lemma move_by_id_swap_down l (i : nat) a b :
  NoDup (get_id <$> l) → l !! i = Some a → l !! S i = Some b →
  move_by_id get_id l (get_id a) down = Some (take i l ++ b :: a :: drop (S (S i)) l).
Proof.
intros Hnd Ha Hb. unfold move_by_id.
pose proof (lookup_lt_Some _ _ _ Hb) as Hlen.
rewrite (findIndex_at l i a Hnd Ha).
destruct (Z.eqb_spec (Z.of_nat i) (-1)); [lia|].
destruct (Z.ltb_spec (Z.of_nat i + 1) 0); [lia|].
rewrite Z.geb_leb. destruct (Z.leb_spec (Z.of_nat (length l)) (Z.of_nat i + 1)); [lia|].
simpl orb. cbv iota. rewrite (splice_remove_at l i a Ha).
f_equal. unfold splice_insert.
rewrite (drop_S l b (S i) Hb).
assert (length (take i l) = i) as Hti by (rewrite length_take; lia).
replace (Z.of_nat i + 1) with (Z.of_nat (S i)) by lia.
rewrite splice_start_in, Nat2Z.id
  by (rewrite length_app, Hti; simpl; lia).
change (take i l ++ b :: drop (S (S i)) l)
  with (take i l ++ [b] ++ drop (S (S i)) l).
rewrite app_assoc.
assert (length (take i l ++ [b]) = S i) as Hti' by (rewrite length_app, Hti; simpl; lia).
rewrite take_app_length', drop_app_length' by done.
by rewrite <- app_assoc.
Qed.

Lemma swapped_lookup l (i : nat) a b :
  l !! i = Some a → l !! S i = Some b →
  (take i l ++ b :: a :: drop (S (S i)) l) !! i = Some b ∧
  (take i l ++ b :: a :: drop (S (S i)) l) !! S i = Some a.
Proof.
intros Ha Hb. pose proof (lookup_lt_Some _ _ _ Hb).
assert (length (take i l) = i) as Hti by (rewrite length_take; lia).
split.
- rewrite lookup_app_r by lia. by rewrite Hti, Nat.sub_diag.
- rewrite lookup_app_r by lia. rewrite Hti.
  by replace (S i - i)%nat with 1%nat by lia.
Qed.

Lemma swapped_twice l (i : nat) a b :
  l !! i = Some a → l !! S i = Some b →
  let l' := take i l ++ b :: a :: drop (S (S i)) l in
  take i l' ++ a :: b :: drop (S (S i)) l' = l.
Proof.
intros Ha Hb l'. pose proof (lookup_lt_Some _ _ _ Hb).
assert (length (take i l) = i) as Hti by (rewrite length_take; lia).
etrans; [|symmetry; apply (swap_at l i a b Ha Hb)]. subst l'. f_equal.
- by rewrite take_app_length'.
- do 2 f_equal.
  change (take i l ++ b :: a :: drop (S (S i)) l)
    with (take i l ++ [b; a] ++ drop (S (S i)) l).
  rewrite app_assoc.
  assert (length (take i l ++ [b; a]) = S (S i)) as Hl
    by (rewrite length_app, Hti; simpl; lia).
  by rewrite drop_app_length'.
Qed.
End Moves.

(** ** The block list: update, delete, move *)

Section MoreBlocks.
Implicit Types (blocks l : list Block) (a b : Block).

Lemma reindex_fixed l : positions_ok l → reindex l = l.
Proof.
unfold positions_ok, reindex. intros H. apply list_eq. intros i.
rewrite list_lookup_imap. destruct (l !! i) as [b|] eqn:Hb; [|done]. simpl. f_equal.
assert ((Block_position <$> l) !! i = Some (Z.of_nat i)) as Hp.
{ rewrite H, list_lookup_fmap, lookup_seq_lt by (by eapply lookup_lt_Some). done. }
rewrite list_lookup_fmap, Hb in Hp. injection Hp as Hp.
destruct b. unfold set_position. simpl in *. by rewrite Hp.
Qed.

Lemma same_bodies_eq l1 l2 :
  Block_body <$> l1 = Block_body <$> l2 → positions_ok l1 → positions_ok l2 → l1 = l2.
Proof.
intros Hb H1 H2. rewrite <- (reindex_fixed l1 H1), <- (reindex_fixed l2 H2).
assert (length l1 = length l2) as Hlen.
{ by rewrite <- (length_fmap Block_body l1), Hb, length_fmap. }
apply list_eq. intros i. unfold reindex. rewrite !list_lookup_imap.
assert ((Block_body <$> l1) !! i = (Block_body <$> l2) !! i) as Hi by (by rewrite Hb).
rewrite !list_lookup_fmap in Hi.
destruct (l1 !! i) as [[i1 t1 p1 c1]|], (l2 !! i) as [[i2 t2 p2 c2]|]; try done.
injection Hi as -> -> ->. done.
Qed.

Lemma body_filter l (blockId : string) :
  Block_body <$> filter (λ b, Block_id b ≠ blockId) l =
  filter (λ t, t.1.1 ≠ blockId) (Block_body <$> l).
Proof.
induction l as [|b l IH]; [done|].
rewrite fmap_cons, !filter_cons. simpl.
destruct (decide (Block_id b ≠ blockId)); [rewrite fmap_cons|]; by rewrite IH.
Qed.

Lemma filter_all_bodies (B : list (string * BlockType * jsval)) (blockId : string) :
  blockId ∉ (λ t, t.1.1) <$> B → filter (λ t, t.1.1 ≠ blockId) B = B.
Proof.
induction B as [|t B IH]; intros H; [done|].
rewrite fmap_cons in H. apply not_elem_of_cons in H as [Hne H].
rewrite filter_cons, decide_True by done. by rewrite IH.
Qed.

Lemma body_ids l : (λ t, t.1.1) <$> (Block_body <$> l) = Block_id <$> l.
Proof. rewrite <- list_fmap_compose. by apply list_fmap_ext. Qed.

Lemma updateBlock_positions prev blockId content :
  Block_position <$> updateBlock prev blockId content = Block_position <$> prev.
Proof.
unfold updateBlock. rewrite <- list_fmap_compose. apply list_fmap_ext.
intros i b _. simpl. by destruct (String.eqb (Block_id b) blockId).
Qed.

Lemma updateBlock_positions_ok prev blockId content :
  positions_ok prev → positions_ok (updateBlock prev blockId content).
Proof.
unfold positions_ok. rewrite updateBlock_positions. intros ->.
unfold updateBlock. by rewrite length_fmap.
Qed.
End MoreBlocks.

(** X1: [updateBlock] changes contents only.  The ids, types and positions
    and the order of the blocks stay as they are; every block with the given
    id gets the new content and no other block does; with an id that is not
    in the list nothing changes. *)
Theorem updateBlock_changes_content_only (prev : list Block) (blockId : string)
    (content : jsval) :
  Block_id <$> updateBlock prev blockId content = Block_id <$> prev ∧
  Block_type <$> updateBlock prev blockId content = Block_type <$> prev ∧
  Block_position <$> updateBlock prev blockId content = Block_position <$> prev ∧
  Block_content <$> updateBlock prev blockId content =
    (λ b, if String.eqb (Block_id b) blockId then content else Block_content b) <$> prev ∧
  (blockId ∉ Block_id <$> prev → updateBlock prev blockId content = prev).
Proof.
repeat split; try apply updateBlock_positions;
  try (unfold updateBlock; rewrite <- list_fmap_compose; apply list_fmap_ext;
       intros i b _; simpl; by destruct (String.eqb (Block_id b) blockId)).
intros H. unfold updateBlock. rewrite <- (list_fmap_id prev) at 2.
apply Forall_fmap_ext, Forall_forall. intros b Hb.
assert (String.eqb (Block_id b) blockId = false) as ->; [|done].
apply String.eqb_neq. intros <-. apply H. by apply list_elem_of_fmap_2.
Qed.

Lemma updateBlock_changes_content_only_witness :
  let a := mkBlock "a" text 0 (getDefaultContent text) in
  let b := mkBlock "b" divider 1 (getDefaultContent divider) in
  ("z" ∉ Block_id <$> [a; b]) ∧ updateBlock [a; b] "z" JNull = [a; b].
Proof.
assert (H : "z" ∉ Block_id <$> [mkBlock "a" text 0 (getDefaultContent text);
                                 mkBlock "b" divider 1 (getDefaultContent divider)]).
{ simpl. intros H. repeat (apply elem_of_cons in H as [H|H]; [discriminate H|]).
  by apply elem_of_nil in H. }
split; [exact H|].
exact (proj2 (proj2 (proj2 (proj2 (updateBlock_changes_content_only _ "z" JNull)))) H).
Defined.

(** X2: contiguous positions are an invariant of the editor: from a list with
    positions [0 .. n-1], every sequence of [addBlock], [updateBlock],
    [deleteBlock] and [moveBlock] gives a list with positions [0 .. n'-1]. *)
Theorem positions_invariant_of_actions (blocks : list Block) (acts : list action) :
  positions_ok blocks → positions_ok (foldl apply_action blocks acts).
Proof.
revert blocks. induction acts as [|a acts IH]; intros blocks H; [done|].
apply IH. destruct a; simpl.
- apply addBlock_positions_ok.
- by apply updateBlock_positions_ok.
- apply deleteBlock_positions_ok.
- by destruct (moveBlock_cases blocks blockId dir) as [->|].
Qed.

Lemma positions_invariant_of_actions_witness :
  let acts := [AddBlock 1700000000000 text None;
               UpdateBlock "block-1700000000000" (JObj [("text", JStr "hello")]);
               AddBlock 1700000000001 heading (Some 0);
               MoveBlock "block-1700000000001" down;
               DeleteBlock "block-1700000000000"] in
  positions_ok [] ∧ positions_ok (foldl apply_action [] acts).
Proof.
assert (H : positions_ok []) by reflexivity.
split; [exact H|].
exact (positions_invariant_of_actions [] _ H).
Defined.

(** X3: [deleteBlock] removes every block with the given id and nothing else:
    the remaining blocks keep id, type, content and order, none of them has
    the id, positions are renumbered, deleting again changes nothing, and an
    id that is not in the list leaves the blocks as they are. *)
Theorem deleteBlock_removes_id (prev : list Block) (blockId : string) :
  Block_body <$> deleteBlock prev blockId =
    filter (λ t, t.1.1 ≠ blockId) (Block_body <$> prev) ∧
  (blockId ∉ Block_id <$> deleteBlock prev blockId) ∧
  positions_ok (deleteBlock prev blockId) ∧
  deleteBlock (deleteBlock prev blockId) blockId = deleteBlock prev blockId ∧
  (blockId ∉ Block_id <$> prev →
   Block_body <$> deleteBlock prev blockId = Block_body <$> prev).
Proof.
assert (Hb : Block_body <$> deleteBlock prev blockId =
             filter (λ t, t.1.1 ≠ blockId) (Block_body <$> prev)).
{ unfold deleteBlock. by rewrite reindex_body, body_filter. }
assert (Hid : blockId ∉ Block_id <$> deleteBlock prev blockId).
{ rewrite <- body_ids, Hb. intros H.
  apply list_elem_of_fmap in H as (t & -> & Ht).
  by apply list_elem_of_filter in Ht as [Hne _]. }
repeat split; try done.
- apply deleteBlock_positions_ok.
- apply same_bodies_eq; try apply deleteBlock_positions_ok.
  unfold deleteBlock at 1. rewrite reindex_body, body_filter.
  apply filter_all_bodies. by rewrite body_ids.
- intros H. rewrite Hb. apply filter_all_bodies. by rewrite body_ids.
Qed.

Lemma deleteBlock_removes_id_witness :
  let a := mkBlock "a" text 0 (getDefaultContent text) in
  let b := mkBlock "b" divider 1 (getDefaultContent divider) in
  ("z" ∉ Block_id <$> [a; b]) ∧
  Block_body <$> deleteBlock [a; b] "z" = Block_body <$> [a; b].
Proof.
assert (H : "z" ∉ Block_id <$> [mkBlock "a" text 0 (getDefaultContent text);
                                 mkBlock "b" divider 1 (getDefaultContent divider)]).
{ simpl. intros H. repeat (apply elem_of_cons in H as [H|H]; [discriminate H|]).
  by apply elem_of_nil in H. }
split; [exact H|].
exact (proj2 (proj2 (proj2 (proj2 (deleteBlock_removes_id _ "z")))) H).
Defined.

(** X4: deleting a block that was just added undoes the addition, when the
    id made for it ("block-" and the clock value) is not the id of a block of
    the list: the blocks are those before the addition, and the list is the
    very same when its positions were contiguous. *)
Theorem deleteBlock_undoes_addBlock (now : Z) (blocks : list Block) (type : BlockType)
    (position : option Z) :
  "block-" +:+ Z_to_string now ∉ Block_id <$> blocks →
  Block_body <$> deleteBlock (addBlock now blocks type position)
                   ("block-" +:+ Z_to_string now) = Block_body <$> blocks ∧
  (positions_ok blocks →
   deleteBlock (addBlock now blocks type position) ("block-" +:+ Z_to_string now) = blocks).
Proof.
intros Hfresh.
assert (Hb : Block_body <$> deleteBlock (addBlock now blocks type position)
               ("block-" +:+ Z_to_string now) = Block_body <$> blocks).
{ unfold deleteBlock, addBlock.
  rewrite reindex_body, body_filter, reindex_body, splice_insert_body.
  unfold splice_insert. rewrite filter_app, filter_cons. simpl.
  rewrite decide_False by (intros H; by apply H).
  rewrite <- filter_app, take_drop.
  apply filter_all_bodies. by rewrite body_ids. }
split; [done|]. intros Hok.
apply same_bodies_eq; [done|apply deleteBlock_positions_ok|done].
Qed.

Lemma deleteBlock_undoes_addBlock_witness :
  let a := mkBlock "a" text 0 (getDefaultContent text) in
  let b := mkBlock "b" divider 1 (getDefaultContent divider) in
  ("block-" +:+ Z_to_string 1700000000000 ∉ Block_id <$> [a; b]) ∧
  Block_body <$> deleteBlock (addBlock 1700000000000 [a; b] image (Some 1))
                   ("block-" +:+ Z_to_string 1700000000000) = Block_body <$> [a; b].
Proof.
assert (H : "block-" +:+ Z_to_string 1700000000000 ∉
            Block_id <$> [mkBlock "a" text 0 (getDefaultContent text);
                          mkBlock "b" divider 1 (getDefaultContent divider)]).
{ simpl. intros H. repeat (apply elem_of_cons in H as [H|H]; [vm_compute in H; discriminate H|]).
  by apply elem_of_nil in H. }
split; [exact H|].
exact (proj1 (deleteBlock_undoes_addBlock 1700000000000 _ image (Some 1) H)).
Defined.

Section BlockMoves.
Implicit Types (blocks l : list Block) (a b : Block).

Lemma moveBlock_up_bodies l (i : nat) a b :
  NoDup (Block_id <$> l) → l !! i = Some a → l !! S i = Some b →
  Block_body <$> moveBlock l (Block_id b) up =
  take i (Block_body <$> l) ++ Block_body b :: Block_body a ::
    drop (S (S i)) (Block_body <$> l).
Proof.
intros Hnd Ha Hb. unfold moveBlock.
rewrite (move_by_id_swap_up Block_id l i a b Hnd Ha Hb), reindex_body.
by rewrite fmap_app, !fmap_cons, fmap_take, fmap_drop.
Qed.

Lemma moveBlock_down_bodies l (i : nat) a b :
  NoDup (Block_id <$> l) → l !! i = Some a → l !! S i = Some b →
  Block_body <$> moveBlock l (Block_id a) down =
  take i (Block_body <$> l) ++ Block_body b :: Block_body a ::
    drop (S (S i)) (Block_body <$> l).
Proof.
intros Hnd Ha Hb. unfold moveBlock.
rewrite (move_by_id_swap_down Block_id l i a b Hnd Ha Hb), reindex_body.
by rewrite fmap_app, !fmap_cons, fmap_take, fmap_drop.
Qed.

Lemma moveBlock_up_eq l (i : nat) a b :
  NoDup (Block_id <$> l) → l !! i = Some a → l !! S i = Some b →
  moveBlock l (Block_id b) up = reindex (take i l ++ b :: a :: drop (S (S i)) l) ∧
  moveBlock l (Block_id b) up !! i = Some (set_position b i) ∧
  moveBlock l (Block_id b) up !! S i = Some (set_position a (S i)).
Proof.
intros Hnd Ha Hb.
assert (H1 : moveBlock l (Block_id b) up =
             reindex (take i l ++ b :: a :: drop (S (S i)) l)).
{ unfold moveBlock. by rewrite (move_by_id_swap_up Block_id l i a b Hnd Ha Hb). }
destruct (swapped_lookup l i a b Ha Hb) as [Hi HSi].
split; [done|]. rewrite H1. unfold reindex.
by rewrite !list_lookup_imap, Hi, HSi.
Qed.

Lemma moveBlock_ids_perm l (blockId : string) (dir : direction) :
  Block_id <$> moveBlock l blockId dir ≡ₚ Block_id <$> l.
Proof.
unfold moveBlock. destruct (move_by_id _ _ _ _) as [l'|] eqn:E; [|done].
rewrite reindex_id. by rewrite (move_by_id_perm _ _ _ _ _ E).
Qed.
End BlockMoves.

(** X5: with distinct ids, moving a block up exchanges it with the block
    before it, and moving that block down does the same; the other blocks
    stay where they are and the list is renumbered. *)
Theorem moveBlock_swaps_neighbours (blocks : list Block) (i : nat) (a b : Block) :
  NoDup (Block_id <$> blocks) → blocks !! i = Some a → blocks !! S i = Some b →
  moveBlock blocks (Block_id b) up =
    reindex (take i blocks ++ b :: a :: drop (S (S i)) blocks) ∧
  moveBlock blocks (Block_id a) down = moveBlock blocks (Block_id b) up ∧
  moveBlock blocks (Block_id b) up !! i = Some (set_position b i) ∧
  moveBlock blocks (Block_id b) up !! S i = Some (set_position a (S i)).
Proof.
intros Hnd Ha Hb.
destruct (moveBlock_up_eq blocks i a b Hnd Ha Hb) as (H1 & Hi & HSi).
repeat split; try done.
unfold moveBlock at 1.
by rewrite (move_by_id_swap_down Block_id blocks i a b Hnd Ha Hb), H1.
Qed.

Lemma moveBlock_swaps_neighbours_witness :
  let a := mkBlock "a" text 0 JNull in
  let b := mkBlock "b" divider 1 JNull in
  let c := mkBlock "c" heading 2 JNull in
  (NoDup (Block_id <$> [a; b; c]) ∧ [a; b; c] !! 1%nat = Some b ∧
   [a; b; c] !! 2%nat = Some c) ∧
  moveBlock [a; b; c] (Block_id c) up =
    reindex (take 1 [a; b; c] ++ c :: b :: drop 3 [a; b; c]).
Proof.
assert (H : NoDup (Block_id <$> [mkBlock "a" text 0 JNull; mkBlock "b" divider 1 JNull;
                                  mkBlock "c" heading 2 JNull])).
{ apply (bool_decide_unpack _). vm_compute. exact I. }
split; [by repeat split|].
exact (proj1 (moveBlock_swaps_neighbours _ 1 _ _ H eq_refl eq_refl)).
Defined.

(** X6: with distinct ids, moving a block up and then down again restores the
    blocks, and restores the very list when its positions were contiguous. *)
Theorem moveBlock_up_then_down (blocks : list Block) (i : nat) (a b : Block) :
  NoDup (Block_id <$> blocks) → blocks !! i = Some a → blocks !! S i = Some b →
  Block_body <$> moveBlock (moveBlock blocks (Block_id b) up) (Block_id b) down =
    Block_body <$> blocks ∧
  (positions_ok blocks →
   moveBlock (moveBlock blocks (Block_id b) up) (Block_id b) down = blocks).
Proof.
intros Hnd Ha Hb.
destruct (moveBlock_up_eq blocks i a b Hnd Ha Hb) as (_ & Hi & HSi).
assert (Hnd' : NoDup (Block_id <$> moveBlock blocks (Block_id b) up)).
{ by rewrite moveBlock_ids_perm. }
assert (Hbodies : Block_body <$> moveBlock (moveBlock blocks (Block_id b) up) (Block_id b) down
                  = Block_body <$> blocks).
{ change (Block_id b) with (Block_id (set_position b i)) at 2.
  rewrite (moveBlock_down_bodies _ i _ _ Hnd' Hi HSi).
  rewrite (moveBlock_up_bodies blocks i a b Hnd Ha Hb).
  apply (swapped_twice (Block_body <$> blocks) i (Block_body a) (Block_body b)).
  - by rewrite list_lookup_fmap, Ha.
  - by rewrite list_lookup_fmap, Hb. }
split; [done|]. intros Hok.
apply same_bodies_eq; [done| |done].
destruct (moveBlock_cases (moveBlock blocks (Block_id b) up) (Block_id b) down) as [->|]; [|done].
by destruct (moveBlock_cases blocks (Block_id b) up) as [->|].
Qed.

Lemma moveBlock_up_then_down_witness :
  let a := mkBlock "a" text 0 JNull in
  let b := mkBlock "b" divider 1 JNull in
  let c := mkBlock "c" heading 2 JNull in
  (NoDup (Block_id <$> [a; b; c]) ∧ [a; b; c] !! 1%nat = Some b ∧
   [a; b; c] !! 2%nat = Some c ∧ positions_ok [a; b; c]) ∧
  moveBlock (moveBlock [a; b; c] (Block_id c) up) (Block_id c) down = [a; b; c].
Proof.
assert (H : NoDup (Block_id <$> [mkBlock "a" text 0 JNull; mkBlock "b" divider 1 JNull;
                                  mkBlock "c" heading 2 JNull])).
{ apply (bool_decide_unpack _). vm_compute. exact I. }
assert (Hok : positions_ok [mkBlock "a" text 0 JNull; mkBlock "b" divider 1 JNull;
                            mkBlock "c" heading 2 JNull]) by reflexivity.
split; [by repeat split|].
exact (proj2 (moveBlock_up_then_down _ 1 _ _ H eq_refl eq_refl) Hok).
Defined.

(** X7: with distinct ids, [moveProperty] up exchanges a property with the one
    before it and leaves the others in place (so moving the last of A, B, C
    up gives A, C, B); moving the property before it down gives the same list,
    and moving up and then down gives the list back. *)
Theorem moveProperty_swaps_neighbours (properties : list DatabaseProperty) (i : nat)
    (p q : DatabaseProperty) :
  NoDup (Property_id <$> properties) →
  properties !! i = Some p → properties !! S i = Some q →
  moveProperty properties (Property_id q) up =
    take i properties ++ q :: p :: drop (S (S i)) properties ∧
  moveProperty properties (Property_id p) down =
    moveProperty properties (Property_id q) up ∧
  moveProperty (moveProperty properties (Property_id q) up) (Property_id q) down =
    properties.
Proof.
intros Hnd Hp Hq.
assert (H1 : moveProperty properties (Property_id q) up =
             take i properties ++ q :: p :: drop (S (S i)) properties).
{ unfold moveProperty. by rewrite (move_by_id_swap_up Property_id _ i p q Hnd Hp Hq). }
repeat split; [done| |].
- unfold moveProperty at 1.
  by rewrite (move_by_id_swap_down Property_id _ i p q Hnd Hp Hq), H1.
- destruct (swapped_lookup properties i p q Hp Hq) as [Hi HSi].
  assert (Hnd' : NoDup (Property_id <$> moveProperty properties (Property_id q) up)).
  { assert (moveProperty properties (Property_id q) up ≡ₚ properties) as ->; [|done].
    unfold moveProperty.
    destruct (move_by_id _ _ _ _) as [l'|] eqn:E; [|done].
    by apply (move_by_id_perm _ _ _ _ _ E). }
  rewrite H1 in *. unfold moveProperty.
  rewrite (move_by_id_swap_down Property_id _ i q p Hnd' Hi HSi).
  apply (swapped_twice properties i p q Hp Hq).
Qed.

Lemma moveProperty_swaps_neighbours_witness :
  let A := mkProperty "a" "A" p_text None None in
  let B := mkProperty "b" "B" p_number None None in
  let C := mkProperty "c" "C" p_date None None in
  (NoDup (Property_id <$> [A; B; C]) ∧ [A; B; C] !! 1%nat = Some B ∧
   [A; B; C] !! 2%nat = Some C) ∧
  moveProperty [A; B; C] (Property_id C) up = [A; C; B].
Proof.
assert (H : NoDup (Property_id <$> [mkProperty "a" "A" p_text None None;
                                     mkProperty "b" "B" p_number None None;
                                     mkProperty "c" "C" p_date None None])).
{ apply (bool_decide_unpack _). vm_compute. exact I. }
split; [by repeat split|].
exact (proj1 (moveProperty_swaps_neighbours _ 1 _ _ H eq_refl eq_refl)).
Defined.

(** ** The property list of the database builder *)

Section Properties.
Implicit Types (properties : list DatabaseProperty) (property p : DatabaseProperty).

Lemma has_id_spec properties (i : string) :
  existsb (λ p, String.eqb (Property_id p) i) properties = true ↔
  i ∈ Property_id <$> properties.
Proof.
rewrite existsb_exists, list_elem_of_fmap. split.
- intros (p & Hp & Heq). apply String.eqb_eq in Heq.
  exists p. split; [done|]. by apply list_elem_of_In.
- intros (p & -> & Hp). exists p. split; [by apply list_elem_of_In|].
  apply String.eqb_refl.
Qed.

Lemma saveProperty_present properties property :
  Property_id property ∈ Property_id <$> properties →
  saveProperty properties property =
  (λ p, if String.eqb (Property_id p) (Property_id property) then property else p)
    <$> properties.
Proof. intros H. unfold saveProperty. apply has_id_spec in H. by rewrite H. Qed.

Lemma saveProperty_absent properties property :
  Property_id property ∉ Property_id <$> properties →
  saveProperty properties property = properties ++ [property].
Proof.
intros H. unfold saveProperty.
destruct (existsb _ properties) eqn:E; [|done]. by apply has_id_spec in E.
Qed.

Lemma replace_ids properties property :
  Property_id <$> ((λ p, if String.eqb (Property_id p) (Property_id property)
                         then property else p) <$> properties) =
  Property_id <$> properties.
Proof.
rewrite <- list_fmap_compose. apply list_fmap_ext. intros i p _. simpl.
destruct (String.eqb_spec (Property_id p) (Property_id property)); done.
Qed.

Lemma replace_absent properties property :
  Property_id property ∉ Property_id <$> properties →
  (λ p, if String.eqb (Property_id p) (Property_id property) then property else p)
    <$> properties = properties.
Proof.
intros H. rewrite <- (list_fmap_id properties) at 2.
apply Forall_fmap_ext, Forall_forall. intros p Hp.
assert (String.eqb (Property_id p) (Property_id property) = false) as ->; [|done].
apply String.eqb_neq. intros Heq. apply H. rewrite <- Heq. by apply list_elem_of_fmap_2.
Qed.

Lemma deleteProperty_all properties (i : string) :
  i ∉ Property_id <$> properties → deleteProperty properties i = properties.
Proof.
induction properties as [|p properties IH]; intros H; [done|].
rewrite fmap_cons in H. apply not_elem_of_cons in H as [Hne H].
unfold deleteProperty. rewrite filter_cons, decide_True by done.
f_equal. by apply IH.
Qed.
End Properties.

(** X8: [saveProperty] replaces in place or appends.  When the id of the
    property is in the list, the list keeps its length and ids and every
    property of that id becomes the saved one; otherwise the property is
    added at the end.  Either way the property is in the list afterwards, and
    saving it a second time changes nothing. *)
Theorem saveProperty_replaces_or_appends (properties : list DatabaseProperty)
    (property : DatabaseProperty) :
  (Property_id property ∈ Property_id <$> properties →
   Property_id <$> saveProperty properties property = Property_id <$> properties ∧
   ∀ i p, properties !! i = Some p →
          saveProperty properties property !! i =
          Some (if String.eqb (Property_id p) (Property_id property) then property else p)) ∧
  (Property_id property ∉ Property_id <$> properties →
   saveProperty properties property = properties ++ [property]) ∧
  property ∈ saveProperty properties property ∧
  saveProperty (saveProperty properties property) property =
    saveProperty properties property.
Proof.
split; [|split; [apply saveProperty_absent|]].
- intros H. rewrite saveProperty_present by done. split; [apply replace_ids|].
  intros i p Hp. by rewrite list_lookup_fmap, Hp.
- destruct (decide (Property_id property ∈ Property_id <$> properties)) as [Hin|Hout].
  + rewrite saveProperty_present by done. split.
    * apply list_elem_of_fmap in Hin as (p & Heq & Hp).
      apply list_elem_of_fmap. exists p. split; [|done].
      by rewrite Heq, String.eqb_refl.
    * rewrite saveProperty_present by (by rewrite replace_ids).
      rewrite <- list_fmap_compose. apply list_fmap_ext. intros i p _. simpl.
      destruct (String.eqb_spec (Property_id p) (Property_id property)) as [Heq|Hne].
      -- by rewrite String.eqb_refl.
      -- by apply String.eqb_neq in Hne as ->.
  + rewrite saveProperty_absent by done. split.
    * apply elem_of_app. right. apply list_elem_of_here.
    * rewrite saveProperty_present.
      -- rewrite fmap_app, replace_absent by done. simpl. by rewrite String.eqb_refl.
      -- rewrite fmap_app. apply elem_of_app. right. apply list_elem_of_here.
Qed.

Lemma saveProperty_replaces_or_appends_witness :
  let A := mkProperty "a" "A" p_text None None in
  let B := mkProperty "b" "B" p_number None None in
  let B' := mkProperty "b" "Amount" p_number None (Some true) in
  (Property_id B' ∈ Property_id <$> [A; B]) ∧
  Property_id <$> saveProperty [A; B] B' = Property_id <$> [A; B].
Proof.
assert (H : Property_id (mkProperty "b" "Amount" p_number None (Some true)) ∈
            Property_id <$> [mkProperty "a" "A" p_text None None;
                             mkProperty "b" "B" p_number None None]).
{ simpl. apply list_elem_of_further, list_elem_of_here. }
split; [exact H|].
exact (proj1 (proj1 (saveProperty_replaces_or_appends _ _) H)).
Defined.

(** X9: [deleteProperty] removes the properties of the given id and no other,
    so the id is gone afterwards; and deleting a property that was just saved
    under an id new to the list gives the list back. *)
Theorem deleteProperty_removes_id (properties : list DatabaseProperty)
    (property : DatabaseProperty) (propertyId : string) :
  (propertyId ∉ Property_id <$> deleteProperty properties propertyId) ∧
  (∀ p, p ∈ deleteProperty properties propertyId ↔
        p ∈ properties ∧ Property_id p ≠ propertyId) ∧
  (Property_id property ∉ Property_id <$> properties →
   deleteProperty (saveProperty properties property) (Property_id property) = properties).
Proof.
split; [|split].
- intros H. apply list_elem_of_fmap in H as (p & -> & Hp).
  by apply list_elem_of_filter in Hp as [Hne _].
- intros p. unfold deleteProperty. rewrite list_elem_of_filter. tauto.
- intros H. rewrite saveProperty_absent by done.
  unfold deleteProperty. rewrite filter_app, filter_cons, filter_nil.
  rewrite decide_False by (intros Hne; by apply Hne).
  rewrite app_nil_r. by apply deleteProperty_all.
Qed.

Lemma deleteProperty_removes_id_witness :
  let A := mkProperty "a" "A" p_text None None in
  let B := mkProperty "b" "B" p_number None None in
  (Property_id B ∉ Property_id <$> [A]) ∧
  deleteProperty (saveProperty [A] B) (Property_id B) = [A].
Proof.
assert (H : Property_id (mkProperty "b" "B" p_number None None) ∉
            Property_id <$> [mkProperty "a" "A" p_text None None]).
{ simpl. intros H. repeat (apply elem_of_cons in H as [H|H]; [discriminate H|]).
  by apply elem_of_nil in H. }
split; [exact H|].
exact (proj2 (proj2 (deleteProperty_removes_id _ _ "a")) H).
Defined.

(** ** The property dialog *)

Section Trim.
Implicit Types (s : string).

Lemma trimStart_head s :
  match trimStart s with
  | String c _ => is_whitespace c = false
  | EmptyString => True
  end.
Proof.
induction s as [|c s IH]; [done|]. simpl.
destruct (is_whitespace c) eqn:E; [done|]. by simpl.
Qed.

Lemma trimEnd_head (c : ascii) s :
  is_whitespace c = false → ∃ r, trimEnd (String c s) = String c r.
Proof.
intros H. simpl. rewrite H. destruct (trimEnd s); eauto.
Qed.

Lemma trimEnd_idemp s : trimEnd (trimEnd s) = trimEnd s.
Proof.
induction s as [|c s IH]; [done|]. simpl.
destruct (trimEnd s) as [|d t] eqn:E.
- destruct (is_whitespace c) eqn:Hc; [done|]. simpl. by rewrite Hc.
- change (trimEnd (String c (String d t))) with
    (match trimEnd (String d t) with
     | EmptyString => if is_whitespace c then EmptyString else String c EmptyString
     | r' => String c r'
     end).
  by rewrite IH.
Qed.

Lemma trim_idemp s : trim (trim s) = trim s.
Proof.
unfold trim. pose proof (trimStart_head s) as H.
destruct (trimStart s) as [|c r]; [done|].
destruct (trimEnd_head c r H) as [r' E].
assert (trimStart (trimEnd (String c r)) = trimEnd (String c r)) as ->.
{ rewrite E. simpl. by rewrite H. }
apply trimEnd_idemp.
Qed.
End Trim.

(** X10: the options of the dialog stay distinct and non-empty.  [addOption]
    appends the trimmed input and clears it exactly when the trimmed input is
    not empty and not yet an option, and otherwise leaves options and input
    alone; [removeOption] takes the given option out; removing an option that
    was just added gives the options back. *)
Theorem options_stay_distinct (options : list string) (newOption option : string) :
  (NoDup options → NoDup (addOption options newOption).1) ∧
  (Forall (λ o, o ≠ "") options → Forall (λ o, o ≠ "") (addOption options newOption).1) ∧
  (trim newOption ≠ "" → trim newOption ∉ options →
   addOption options newOption = (options ++ [trim newOption], "")) ∧
  (trim newOption = "" ∨ trim newOption ∈ options →
   addOption options newOption = (options, newOption)) ∧
  (option ∉ removeOption options option) ∧
  (trim newOption ∉ options →
   removeOption (addOption options newOption).1 (trim newOption) = options).
Proof.
assert (Hin : ∀ t, existsb (String.eqb t) options = true ↔ t ∈ options).
{ intros t. rewrite existsb_exists. split.
  - intros (o & Ho & Heq). apply String.eqb_eq in Heq as ->. by apply list_elem_of_In.
  - intros H. exists t. split; [by apply list_elem_of_In|apply String.eqb_refl]. }
assert (Hadd : trim newOption ≠ "" → trim newOption ∉ options →
               addOption options newOption = (options ++ [trim newOption], "")).
{ intros Hne Hout. unfold addOption. destruct (trim newOption) as [|c r] eqn:E; [done|].
  destruct (existsb _ options) eqn:Ex; [|done]. by apply Hin in Ex. }
assert (Hkeep : trim newOption = "" ∨ trim newOption ∈ options →
                addOption options newOption = (options, newOption)).
{ intros H. unfold addOption. destruct (trim newOption) as [|c r] eqn:E; [done|].
  destruct H as [H|H]; [done|]. apply Hin in H. by rewrite H. }
assert (Hall : ∀ (l : list string) (o : string), o ∉ l → filter (λ x, x ≠ o) l = l).
{ induction l as [|x l IH]; intros o Ho; [done|].
  apply not_elem_of_cons in Ho as [Hne Ho].
  rewrite filter_cons, decide_True by done. by rewrite IH. }
split; [|split; [|split; [done|split; [done|split]]]].
- intros Hnd.
  destruct (decide (trim newOption = "")) as [He|He]; [by rewrite Hkeep by (by left)|].
  destruct (decide (trim newOption ∈ options)) as [Hi|Hi]; [by rewrite Hkeep by (by right)|].
  rewrite Hadd by done. simpl. apply NoDup_app. split; [done|]. split.
  + intros x Hx Hx'. apply list_elem_of_singleton in Hx' as ->. done.
  + apply NoDup_singleton.
- intros Hall'.
  destruct (decide (trim newOption = "")) as [He|He]; [by rewrite Hkeep by (by left)|].
  destruct (decide (trim newOption ∈ options)) as [Hi|Hi]; [by rewrite Hkeep by (by right)|].
  rewrite Hadd by done. simpl. apply Forall_app. split; [done|]. by constructor.
- intros H. by apply list_elem_of_filter in H as [Hne _].
- intros Hout. unfold removeOption.
  destruct (decide (trim newOption = "")) as [He|He].
  + rewrite Hkeep by (by left). simpl. by apply Hall.
  + rewrite Hadd by done. simpl. rewrite filter_app, filter_cons, filter_nil.
    rewrite decide_False by (intros Hne; by apply Hne).
    rewrite app_nil_r. by apply Hall.
Qed.

Lemma options_stay_distinct_witness :
  (trim " red " ≠ "" ∧ trim " red " ∉ ["blue"]) ∧
  addOption ["blue"] " red " = (["blue"] ++ [trim " red "], "").
Proof.
assert (H1 : trim " red " ≠ "") by (vm_compute; discriminate).
assert (H2 : trim " red " ∉ ["blue"]).
{ vm_compute. intros H. repeat (apply elem_of_cons in H as [H|H]; [discriminate H|]).
  by apply elem_of_nil in H. }
split; [by split|].
exact (proj1 (proj2 (proj2 (options_stay_distinct ["blue"] " red " ""))) H1 H2).
Defined.

(** X11: what the dialog saves goes to the right place of the list.  With a
    blank name nothing is saved.  Otherwise the saved property carries the id
    of the property that was opened, when that id is not empty (and a freshly
    made id when it is); saving it with [saveProperty] then keeps the length
    and the ids of a list that holds the opened property, and appends to a
    list that does not hold its id. *)
Theorem dialog_save_keeps_place (now : Z) (properties : list DatabaseProperty)
    (p : DatabaseProperty) (name : string) (type : PropertyType) (required : bool)
    (options : list string) :
  (trim name = "" →
   PropertyEditorDialog_handleSave now (Some p) name type required options = None) ∧
  (trim name ≠ "" →
   ∃ saved,
     PropertyEditorDialog_handleSave now (Some p) name type required options = Some saved ∧
     Property_id saved =
       (if String.eqb (Property_id p) "" then "prop-" +:+ Z_to_string now
        else Property_id p) ∧
     (Property_id p ≠ "" → p ∈ properties →
      Property_id <$> saveProperty properties saved = Property_id <$> properties) ∧
     (Property_id saved ∉ Property_id <$> properties →
      saveProperty properties saved = properties ++ [saved])).
Proof.
split.
- intros H. unfold PropertyEditorDialog_handleSave. by rewrite H.
- intros Hname. unfold PropertyEditorDialog_handleSave.
  destruct (trim name) as [|c r] eqn:E; [done|].
  eexists. split; [reflexivity|]. simpl.
  assert (Hid : match Property_id p with
                | "" => "prop-" +:+ Z_to_string now
                | String a s => String a s
                end = if String.eqb (Property_id p) "" then "prop-" +:+ Z_to_string now
                      else Property_id p).
  { by destruct (Property_id p). }
  split; [exact Hid|]. split.
  + intros Hne Hp.
    rewrite saveProperty_present; [apply replace_ids|]. simpl.
    destruct (Property_id p) eqn:Ep; [done|]. rewrite <- Ep.
    by apply list_elem_of_fmap_2.
  + intros Hout. by apply saveProperty_absent.
Qed.

Lemma dialog_save_keeps_place_witness :
  let A := mkProperty "a" "A" p_text None None in
  let B := mkProperty "b" "B" p_number None None in
  (trim "Amount " ≠ "" ∧ Property_id B ≠ "" ∧ B ∈ [A; B]) ∧
  ∃ saved,
    PropertyEditorDialog_handleSave 1700000000000 (Some B) "Amount " p_number true [] =
      Some saved ∧
    Property_id <$> saveProperty [A; B] saved = Property_id <$> [A; B].
Proof.
assert (H1 : trim "Amount " ≠ "") by (vm_compute; discriminate).
assert (H2 : Property_id (mkProperty "b" "B" p_number None None) ≠ "") by discriminate.
assert (H3 : mkProperty "b" "B" p_number None None ∈
             [mkProperty "a" "A" p_text None None; mkProperty "b" "B" p_number None None]).
{ apply list_elem_of_further, list_elem_of_here. }
split; [by repeat split|].
destruct (proj2 (dialog_save_keeps_place 1700000000000
                   [mkProperty "a" "A" p_text None None;
                    mkProperty "b" "B" p_number None None]
                   (mkProperty "b" "B" p_number None None)
                   "Amount " p_number true []) H1)
  as (saved & Hs & _ & Hkeep & _).
exists saved. split; [exact Hs|]. exact (Hkeep H2 H3).
Defined.

(** X12: opening a property in the dialog and saving it at once brings it to
    a normal form and keeps it there.  With a blank name nothing is saved.
    Otherwise the result has the same id and type, the trimmed name, an
    explicit [required] flag, and options only when the type is select or
    multiSelect (the options of any other type are dropped); saving the
    result once more gives the same property. *)
Theorem resave_normalises (now : Z) (p : DatabaseProperty) :
  (trim (Property_name p) = "" → PropertyEditorDialog_resave now p = None) ∧
  (trim (Property_name p) ≠ "" → Property_id p ≠ "" →
   ∃ saved,
     PropertyEditorDialog_resave now p = Some saved ∧
     Property_id saved = Property_id p ∧
     Property_type saved = Property_type p ∧
     Property_name saved = trim (Property_name p) ∧
     Property_required saved = Some (default false (Property_required p)) ∧
     Property_options saved =
       match Property_type p with
       | p_select | p_multiSelect => Some (default [] (Property_options p))
       | _ => None
       end ∧
     PropertyEditorDialog_resave now saved = Some saved).
Proof.
destruct p as [i n t os r]. unfold PropertyEditorDialog_resave. simpl. split.
- intros H. unfold PropertyEditorDialog_handleSave. by rewrite H.
- intros Hn Hi. unfold PropertyEditorDialog_handleSave.
  destruct (trim n) as [|c s] eqn:E; [done|].
  destruct i as [|a i]; [done|].
  eexists. split; [reflexivity|]. simpl. repeat split.
  rewrite <- E, trim_idemp, E. by destruct t.
Qed.

Lemma resave_normalises_witness :
  let p := mkProperty "p1" " Status " p_text (Some ["open"; "closed"]) None in
  (trim (Property_name p) ≠ "" ∧ Property_id p ≠ "") ∧
  ∃ saved,
    PropertyEditorDialog_resave 1700000000000 p = Some saved ∧
    Property_options saved = None ∧
    PropertyEditorDialog_resave 1700000000000 saved = Some saved.
Proof.
assert (H1 : trim (Property_name (mkProperty "p1" " Status " p_text
                                    (Some ["open"; "closed"]) None)) ≠ "")
  by (vm_compute; discriminate).
assert (H2 : Property_id (mkProperty "p1" " Status " p_text
                            (Some ["open"; "closed"]) None) ≠ "") by discriminate.
split; [by split|].
destruct (proj2 (resave_normalises 1700000000000
                   (mkProperty "p1" " Status " p_text (Some ["open"; "closed"]) None)) H1 H2)
  as (saved & Hs & _ & _ & _ & _ & Ho & Hidem).
exists saved. by repeat split.
Defined.

(** ** Storing the property list *)

Section StoredProperties.
Implicit Types (p : DatabaseProperty) (properties : list DatabaseProperty).

Lemma PropertyType_of_name_name (type : PropertyType) :
  PropertyType_of_name (PropertyType_name type) = Some type.
Proof. by destruct type. Qed.

Lemma strings_of_js_strings (os : list string) : strings_of_js (JStr <$> os) = Some os.
Proof.
induction os as [|o os IH]; [done|].
rewrite fmap_cons. cbn [strings_of_js]. by rewrite IH.
Qed.

Lemma Property_of_js_to_js p : Property_of_js (Property_to_js p) = Some p.
Proof.
destruct p as [i n t os r]. unfold Property_of_js, Property_to_js.
destruct r as [b|], os as [os|]; cbn; rewrite PropertyType_of_name_name;
  rewrite ?strings_of_js_strings; done.
Qed.
End StoredProperties.

(** X13: the property list survives being stored.  [handleSave] of the
    builder saves nothing when the name is blank; otherwise it stores a text
    that parses back to the array of the same property objects, and reading
    id, name, type, required and options from each gives the properties
    back, with absent optional fields still absent. *)
Theorem properties_survive_storing (name : string) (properties : list DatabaseProperty) :
  (trim name = "" → DatabaseBuilder_handleSave name properties = None) ∧
  (trim name ≠ "" →
   ∃ stored,
     DatabaseBuilder_handleSave name properties = Some stored ∧
     parse_properties stored = Some (JArr (Property_to_js <$> properties)) ∧
     Property_of_js <$> (Property_to_js <$> properties) = Some <$> properties).
Proof.
unfold DatabaseBuilder_handleSave. split.
- by intros ->.
- intros H. destruct (trim name) as [|c r]; [done|].
  eexists. split; [reflexivity|]. split; [apply JSON_parse_stringify|].
  rewrite <- list_fmap_compose. apply list_fmap_ext.
  intros i p _. apply Property_of_js_to_js.
Qed.

Lemma properties_survive_storing_witness :
  let tags := mkProperty "p3" "tags" p_multiSelect (Some ["a"; "b"]) (Some false) in
  let name := mkProperty "p1" "name" p_text None None in
  (trim "Books" ≠ "") ∧
  ∃ stored,
    DatabaseBuilder_handleSave "Books" [name; tags] = Some stored ∧
    parse_properties stored = Some (JArr (Property_to_js <$> [name; tags])).
Proof.
assert (H : trim "Books" ≠ "") by (vm_compute; discriminate).
split; [exact H|].
destruct (proj2 (properties_survive_storing "Books"
                   [mkProperty "p1" "name" p_text None None;
                    mkProperty "p3" "tags" p_multiSelect (Some ["a"; "b"]) (Some false)]) H)
  as (stored & Hs & Hp & _).
exists stored. by split.
Defined.

(** ** Contents of blocks *)

Section Contents.
Implicit Types (l : list (string * jsval)) (k : string) (v : jsval).

Lemma assoc_last_app k l1 l2 :
  assoc_last k (l1 ++ l2) =
  match assoc_last k l2 with
  | Some w => Some w
  | None => assoc_last k l1
  end.
Proof.
induction l1 as [|[k1 v1] l1 IH]; simpl.
- by destruct (assoc_last k l2).
- rewrite IH. by destruct (assoc_last k l2).
Qed.

Lemma assoc_last_none k l :
  existsb (λ kv, String.eqb kv.1 k) l = false → assoc_last k l = None.
Proof.
induction l as [|[k1 v1] l IH]; [done|]. simpl.
intros H. apply orb_false_iff in H as [H1 H2].
rewrite (IH H2). by rewrite String.eqb_sym, H1.
Qed.

Lemma replace_keeps_keys k v l :
  existsb (λ kv, String.eqb kv.1 k)
    ((λ kv, if String.eqb kv.1 k then (kv.1, v) else kv) <$> l) =
  existsb (λ kv, String.eqb kv.1 k) l.
Proof.
induction l as [|[k2 v2] l IH]; [done|].
rewrite fmap_cons. cbn [existsb fst]. rewrite IH. f_equal.
by destruct (String.eqb k2 k) eqn:E2; cbn [fst]; rewrite E2.
Qed.

Lemma assoc_last_replace k v l :
  existsb (λ kv, String.eqb kv.1 k) l = true →
  assoc_last k ((λ kv, if String.eqb kv.1 k then (kv.1, v) else kv) <$> l) = Some v.
Proof.
induction l as [|[k1 v1] l IH]; [done|]. rewrite fmap_cons. cbn [existsb fst].
destruct (existsb (λ kv, String.eqb kv.1 k) l) eqn:E.
- intros _. destruct (String.eqb k1 k); cbn [assoc_last]; by rewrite IH.
- rewrite orb_false_r. intros H1. rewrite H1. cbn [assoc_last].
  rewrite assoc_last_none by (by rewrite replace_keeps_keys).
  by rewrite String.eqb_sym, H1.
Qed.

Lemma assoc_last_replace_other k k' v l :
  k' ≠ k →
  assoc_last k' ((λ kv, if String.eqb kv.1 k then (kv.1, v) else kv) <$> l) =
  assoc_last k' l.
Proof.
intros Hne. induction l as [|[k1 v1] l IH]; [done|]. rewrite fmap_cons. cbn [fst].
destruct (String.eqb_spec k1 k) as [->|]; cbn [assoc_last]; rewrite IH; [|done].
destruct (assoc_last k' l); [done|].
by apply String.eqb_neq in Hne as ->.
Qed.

Lemma assoc_last_obj_set k v l : assoc_last k (obj_set k v l) = Some v.
Proof.
unfold obj_set. destruct (existsb _ l) eqn:E.
- by apply assoc_last_replace.
- rewrite assoc_last_app. simpl. by rewrite String.eqb_refl.
Qed.

Lemma assoc_last_obj_set_other k k' v l :
  k' ≠ k → assoc_last k' (obj_set k v l) = assoc_last k' l.
Proof.
intros Hne. unfold obj_set. destruct (existsb _ l) eqn:E.
- by apply assoc_last_replace_other.
- rewrite assoc_last_app. simpl. by apply String.eqb_neq in Hne as ->.
Qed.

Lemma obj_set_keys k v l :
  (obj_set k v l).*1 = if existsb (λ kv, String.eqb kv.1 k) l then l.*1 else l.*1 ++ [k].
Proof.
unfold obj_set. destruct (existsb _ l).
- rewrite <- list_fmap_compose. apply list_fmap_ext. intros i [k1 v1] _. simpl.
  by destruct (String.eqb k1 k).
- by rewrite fmap_app.
Qed.
End Contents.

(** X14: what a block editor hands to [onUpdate], [{ ...content, [k]: v }],
    differs from the content in the one property: reading [k] gives [v],
    every other property reads as before, a property that was there keeps
    its place among the keys and a new one comes last.  Written to a block
    with [updateBlock], it leaves the ids, types and positions of the list
    alone. *)
Theorem content_with_sets_one_property (l : list (string * jsval)) (k : string) (v : jsval)
    (blocks : list Block) (blockId : string) :
  js_get k (content_with (JObj l) k v) = Some v ∧
  (∀ k', k' ≠ k → js_get k' (content_with (JObj l) k v) = js_get k' (JObj l)) ∧
  (k ∈ l.*1 → ∃ l', content_with (JObj l) k v = JObj l' ∧ l'.*1 = l.*1) ∧
  (k ∉ l.*1 → content_with (JObj l) k v = JObj (l ++ [(k, v)])) ∧
  Block_body <$> updateBlock blocks blockId (content_with (JObj l) k v) =
    (λ b, (Block_id b, Block_type b,
           if String.eqb (Block_id b) blockId then content_with (JObj l) k v
           else Block_content b)) <$> blocks ∧
  Block_position <$> updateBlock blocks blockId (content_with (JObj l) k v) =
    Block_position <$> blocks.
Proof.
assert (Hkey : existsb (λ kv : string * jsval, String.eqb kv.1 k) l = true ↔ k ∈ l.*1).
{ rewrite existsb_exists, list_elem_of_fmap. split.
  - intros ([k1 v1] & Hin & Heq). apply String.eqb_eq in Heq. simpl in Heq. subst k1.
    exists (k, v1). split; [done|]. by apply list_elem_of_In.
  - intros ([k1 v1] & -> & Hin). exists (k1, v1).
    split; [by apply list_elem_of_In|apply String.eqb_refl]. }
unfold content_with. simpl. split; [apply assoc_last_obj_set|].
split; [intros k' Hne; by apply assoc_last_obj_set_other|].
split; [|split; [|split]].
- intros Hin. eexists. split; [reflexivity|].
  rewrite obj_set_keys. apply Hkey in Hin. by rewrite Hin.
- intros Hout. unfold obj_set. destruct (existsb _ l) eqn:E; [|done].
  exfalso. apply Hout. by apply Hkey.
- unfold updateBlock. rewrite <- list_fmap_compose. apply list_fmap_ext.
  intros i b _. simpl. by destruct (String.eqb (Block_id b) blockId).
- apply updateBlock_positions.
Qed.

Lemma content_with_sets_one_property_witness :
  ("text" ≠ "format") ∧
  js_get "text" (content_with (getDefaultContent text) "format" (JStr "quote")) =
    js_get "text" (getDefaultContent text).
Proof.
assert (H : "text" ≠ "format") by discriminate.
split; [exact H|].
exact (proj1 (proj2 (content_with_sets_one_property
                       [("text", JStr ""); ("format", JStr "paragraph")]
                       "format" (JStr "quote") [] "")) "text" H).
Defined.

Lemma loadPageData_stringify (v : jsval) (resources_throw : bool) :
  loadPageData (Some (JSON_stringify v)) resources_throw =
  if resources_throw then [fallback_block (Some (JSON_stringify v))]
  else match v with JArr l => l | _ => [] end.
Proof.
unfold loadPageData.
destruct (JSON_stringify_nonempty v) as (c & r & E). rewrite E, <- E.
rewrite (JSON_parse_valid _ _ (JSON_parse_stringify v)), JSON_parse_stringify.
by destruct v.
Qed.

(** X15: a page made by [createPage] opens as one text block.  Whatever the
    title, loading the stored content gives exactly one block with id
    "block-1", tag text, position 0 and format paragraph.  When the requests
    of the load succeed its text is "Welcome to", the title and "!"; when
    one of them throws, the block is the one of the [catch] branch and its
    text is the stored JSON text itself. *)
Theorem created_page_loads_welcome_block (title : string) (resources_throw : bool) :
  Block_of_js <$> loadPageData (Some (createPage_content title)) resources_throw =
  [Some (mkBlock "block-1" text 0
           (JObj [("text", JStr (if resources_throw then createPage_content title
                                 else "Welcome to " +:+ title +:+ "!"));
                  ("format", JStr "paragraph")]))].
Proof.
unfold createPage_content. rewrite loadPageData_stringify.
by destruct resources_throw.
Qed.



(** ** The database block *)

Section DatabaseBlock.
Implicit Types (blocks : list Block) (block : Block).

Lemma BlockRenderer_content_None block :
  BlockRenderer_content block = None ↔ Block_type block = database.
Proof. unfold BlockRenderer_content. by destruct (Block_type block). Qed.

Lemma PageEditor_blocks_None blocks :
  PageEditor_blocks blocks = None ↔ database ∈ Block_type <$> blocks.
Proof.
unfold PageEditor_blocks. rewrite mapM_None, Exists_exists, list_elem_of_fmap.
split.
- intros (b & Hb & H). exists b. split; [|done]. symmetry. by apply BlockRenderer_content_None.
- intros (b & Hb & H). exists b. split; [done|]. by apply BlockRenderer_content_None.
Qed.

Lemma body_types blocks : (λ t, t.1.2) <$> (Block_body <$> blocks) = Block_type <$> blocks.
Proof. rewrite <- list_fmap_compose. by apply list_fmap_ext. Qed.

Lemma reindex_types blocks : Block_type <$> reindex blocks = Block_type <$> blocks.
Proof. by rewrite <- !body_types, reindex_body. Qed.

Lemma addBlock_types (now : Z) blocks (type : BlockType) (position : option Z) :
  Block_type <$> addBlock now blocks type position ≡ₚ type :: (Block_type <$> blocks).
Proof.
unfold addBlock. rewrite reindex_types.
by rewrite (fmap_Permutation _ _ _ (splice_insert_perm _ _ _)).
Qed.

Lemma updateBlock_types blocks (blockId : string) (content : jsval) :
  Block_type <$> updateBlock blocks blockId content = Block_type <$> blocks.
Proof.
unfold updateBlock. rewrite <- list_fmap_compose. apply list_fmap_ext.
intros i b _. simpl. by destruct (String.eqb (Block_id b) blockId).
Qed.

Lemma moveBlock_types blocks (blockId : string) (dir : direction) :
  Block_type <$> moveBlock blocks blockId dir ≡ₚ Block_type <$> blocks.
Proof.
unfold moveBlock. destruct (move_by_id _ _ _ _) as [l'|] eqn:E; [|done].
rewrite reindex_types. by rewrite (move_by_id_perm _ _ _ _ _ E).
Qed.
End DatabaseBlock.

(** X17: a database block is never shown.  For a block of type database
    [BlockRenderer] reads [databases], which is not bound there, and throws
    before [DatabaseBlockEditor] is reached, whatever the content of the block
    and whatever databases the project has; for a block of any other type it
    returns its element.  So some [BlockRenderer] of the page throws exactly
    when the list holds a database block: it does after a database block is
    added, at any position; changing the content of a block or moving a
    block changes nothing about it; and after a deletion it does exactly when
    a database block with another id is left. *)
Theorem database_block_is_not_rendered (blocks : list Block) :
  (∀ block, BlockRenderer_content block = None ↔ Block_type block = database) ∧
  (PageEditor_blocks blocks = None ↔ database ∈ Block_type <$> blocks) ∧
  (∀ now position, PageEditor_blocks (addBlock now blocks database position) = None) ∧
  (∀ blockId content,
     PageEditor_blocks (updateBlock blocks blockId content) = None ↔
     PageEditor_blocks blocks = None) ∧
  (∀ blockId dir,
     PageEditor_blocks (moveBlock blocks blockId dir) = None ↔
     PageEditor_blocks blocks = None) ∧
  (∀ blockId,
     PageEditor_blocks (deleteBlock blocks blockId) = None ↔
     ∃ block, block ∈ blocks ∧ Block_type block = database ∧ Block_id block ≠ blockId).
Proof.
split; [apply BlockRenderer_content_None|]. split; [apply PageEditor_blocks_None|].
split; [|split; [|split]].
- intros now position. apply PageEditor_blocks_None.
  rewrite addBlock_types. apply list_elem_of_here.
- intros blockId content. by rewrite !PageEditor_blocks_None, updateBlock_types.
- intros blockId dir. by rewrite !PageEditor_blocks_None, moveBlock_types.
- intros blockId. rewrite PageEditor_blocks_None. unfold deleteBlock.
  rewrite reindex_types, list_elem_of_fmap. split.
  + intros (b & Ht & Hb). apply list_elem_of_filter in Hb as [Hid Hb]. by exists b.
  + intros (b & Hb & Ht & Hid). exists b. split; [done|]. by apply list_elem_of_filter.
Qed.

Lemma database_block_is_not_rendered_witness :
  let title := mkBlock "b1" heading 0 (JObj [("text", JStr "Books"); ("level", JNum 1)]) in
  let books := mkBlock "b2" database 1
                 (JObj [("databaseId", JStr "db-1"); ("viewType", JStr "table")]) in
  database ∈ Block_type <$> [title; books] ∧
  PageEditor_blocks [title; books] = None ∧
  PageEditor_blocks [title] = Some [HeadingBlockEditor_element title].
Proof.
assert (H : database ∈ Block_type <$>
              [mkBlock "b1" heading 0 (JObj [("text", JStr "Books"); ("level", JNum 1)]);
               mkBlock "b2" database 1
                 (JObj [("databaseId", JStr "db-1"); ("viewType", JStr "table")])]).
{ apply list_elem_of_further, list_elem_of_here. }
split; [exact H|]. split; [|reflexivity].
exact (proj2 (proj1 (proj2 (database_block_is_not_rendered _))) H).
Defined.

(** ** Ratings *)

(** X18: a rating is always shown as five stars, in the table and in the
    form alike: for every number the two rows light the same stars, as many
    as the value says, none below 1 and all five from 5 on; a form field that
    was never set shows none. *)
Theorem rating_shows_five_stars (value : Z) :
  length (viewer_stars value) = 5%nat ∧
  viewer_stars value = form_stars (Some value) ∧
  viewer_stars value =
    replicate (Z.to_nat (Z.min value 5)) true ++
    replicate (5 - Z.to_nat (Z.min value 5)) false ∧
  form_stars None = replicate 5 false.
Proof.
unfold viewer_stars, form_stars. split; [done|]. split; [|split; [|done]].
- assert (match value with 0 => 0 | _ => value end = value) as -> by (by destruct value).
  simpl. repeat f_equal; apply eq_iff_eq_true;
    rewrite Z.ltb_lt, Z.leb_le; lia.
- simpl.
  destruct (Z.ltb_spec 0 value), (Z.ltb_spec 1 value), (Z.ltb_spec 2 value),
    (Z.ltb_spec 3 value), (Z.ltb_spec 4 value); try lia.
  + replace (Z.to_nat (Z.min value 5)) with 5%nat by lia. done.
  + replace (Z.to_nat (Z.min value 5)) with 4%nat by lia. done.
  + replace (Z.to_nat (Z.min value 5)) with 3%nat by lia. done.
  + replace (Z.to_nat (Z.min value 5)) with 2%nat by lia. done.
  + replace (Z.to_nat (Z.min value 5)) with 1%nat by lia. done.
  + replace (Z.to_nat (Z.min value 5)) with 0%nat by lia. done.
Qed.

(** ** Entries of the database viewer *)

Section Entries.
Implicit Types (prev entries : list DatabaseEntry) (e : DatabaseEntry).

Lemma deleteEntry_all prev (i : string) :
  i ∉ Entry_id <$> prev → deleteEntry prev i = prev.
Proof.
induction prev as [|e prev IH]; intros H; [done|].
rewrite fmap_cons in H. apply not_elem_of_cons in H as [Hne H].
unfold deleteEntry. rewrite filter_cons, decide_True by done.
f_equal. by apply IH.
Qed.

Lemma filteredEntries_all entries (properties : list DatabaseProperty) :
  filteredEntries entries "" properties = entries.
Proof.
unfold filteredEntries. induction entries as [|e entries IH]; [done|].
rewrite filter_cons, decide_True by done. by rewrite IH.
Qed.
End Entries.

(** X19: how saving and deleting change the list of entries.  Saving an
    edited entry keeps the ids and the order; every entry with its id gets
    the saved data and every other entry stays as it is, so nothing changes
    when that id is no longer in the list.  A new entry comes first and, with
    an empty search, all entries are shown.  Deleting the entry just created
    (its id being new) gives the list back, and deleting commutes with
    searching. *)
Theorem entries_after_save_and_delete (now : Z) (editing : DatabaseEntry)
    (prev : list DatabaseEntry) (data : gmap string jsval) (entryId query : string)
    (properties : list DatabaseProperty) :
  Entry_id <$> saveEntry now (Some editing) prev data = Entry_id <$> prev ∧
  (Entry_id editing ∉ Entry_id <$> prev → saveEntry now (Some editing) prev data = prev) ∧
  filteredEntries (saveEntry now None prev data) "" properties =
    mkEntry ("entry-" +:+ Z_to_string now) data :: prev ∧
  ("entry-" +:+ Z_to_string now ∉ Entry_id <$> prev →
   deleteEntry (saveEntry now None prev data) ("entry-" +:+ Z_to_string now) = prev) ∧
  filteredEntries (deleteEntry prev entryId) query properties =
    deleteEntry (filteredEntries prev query properties) entryId ∧
  (∀ i e, prev !! i = Some e →
     ∃ e', saveEntry now (Some editing) prev data !! i = Some e' ∧
           Entry_id e' = Entry_id e ∧
           Entry_data e' = (if String.eqb (Entry_id e) (Entry_id editing)
                            then data else Entry_data e) ∧
           (Entry_id e ≠ Entry_id editing → e' = e)).
Proof.
split; [|split; [|split; [|split; [|split]]]].
- unfold saveEntry. rewrite <- list_fmap_compose. apply list_fmap_ext.
  intros i e _. simpl. by destruct (String.eqb (Entry_id e) (Entry_id editing)).
- intros H. unfold saveEntry. rewrite <- (list_fmap_id prev) at 2.
  apply Forall_fmap_ext, Forall_forall. intros e He.
  assert (String.eqb (Entry_id e) (Entry_id editing) = false) as ->; [|done].
  apply String.eqb_neq. intros Heq. apply H. rewrite <- Heq. by apply list_elem_of_fmap_2.
- apply filteredEntries_all.
- intros H. unfold saveEntry, deleteEntry. rewrite filter_cons. simpl.
  rewrite decide_False by (intros Hne; by apply Hne).
  by apply deleteEntry_all.
- unfold filteredEntries, deleteEntry.
  induction prev as [|e prev IH]; [done|].
  rewrite !filter_cons.
  destruct (decide (Entry_id e ≠ entryId)),
           (decide (entry_matches query properties e = true));
    rewrite ?filter_cons, ?decide_True, ?decide_False by done; by rewrite IH.
- intros i e He. unfold saveEntry. rewrite list_lookup_fmap, He. simpl.
  destruct (String.eqb_spec (Entry_id e) (Entry_id editing)) as [Heq|Hne].
  + exists (mkEntry (Entry_id e) data). by repeat split.
  + exists e. by repeat split.
Qed.

Lemma entries_after_save_and_delete_witness :
  let apple := mkEntry "e1" {[ "name" := JStr "Apple" ]} in
  ("entry-" +:+ Z_to_string 1700000000000 ∉ Entry_id <$> [apple]) ∧
  deleteEntry (saveEntry 1700000000000 None [apple] ∅)
    ("entry-" +:+ Z_to_string 1700000000000) = [apple].
Proof.
assert (H : "entry-" +:+ Z_to_string 1700000000000 ∉
            Entry_id <$> [mkEntry "e1" {[ "name" := JStr "Apple" ]}]).
{ simpl. intros H. repeat (apply elem_of_cons in H as [H|H]; [vm_compute in H; discriminate H|]).
  by apply elem_of_nil in H. }
split; [exact H|].
exact (proj1 (proj2 (proj2 (proj2
         (entries_after_save_and_delete 1700000000000 (mkEntry "" ∅)
            [mkEntry "e1" {[ "name" := JStr "Apple" ]}] ∅ "" "" [])))) H).
Defined.

(** X20: editing fields adds the keys that are written and no other.  After
    any sequence of [updateField] the keys of the form are those of the empty
    form and the names written; so a form that is edited on names of the
    schema has exactly the property names as keys when no property is named
    [__proto__] (such a property has no key until its field is first written).
    A field holds the value written to it right after the write, and a
    field that was never written holds what the empty form has. *)
Theorem form_keeps_schema_keys (properties : list DatabaseProperty)
    (updates : list (string * jsval)) :
  let form := foldl (λ data u, updateField data u.1 u.2) (initialData properties) updates in
  dom form = dom (initialData properties) ∪ list_to_set updates.*1 ∧
  ("__proto__" ∉ Property_name <$> properties →
   Forall (λ u, u.1 ∈ Property_name <$> properties) updates →
   dom form = list_to_set (Property_name <$> properties)) ∧
  (∀ name value, updateField form name value !! name = Some value) ∧
  (∀ k, k ∉ updates.*1 → form !! k = initialData properties !! k).
Proof.
simpl.
assert (Hdom : dom (foldl (λ data u, updateField data u.1 u.2)
                      (initialData properties) updates) =
               dom (initialData properties) ∪ list_to_set updates.*1).
{ induction updates as [|[k v] updates IH] using rev_ind.
  - simpl. by rewrite (right_id_L ∅ (∪)).
  - rewrite foldl_snoc. unfold updateField at 1. simpl.
    rewrite dom_insert_L, IH, fmap_app, list_to_set_app_L. simpl.
    rewrite (right_id_L ∅ (∪)), (comm_L (∪) {[k]}). by rewrite (assoc_L (∪)). }
split; [exact Hdom|]. split; [|split].
- intros Hproto H. rewrite Hdom, initialData_dom, filter_no_proto by done.
  rewrite (comm_L (∪)). apply subseteq_union_1_L. intros k Hk.
  apply elem_of_list_to_set, list_elem_of_fmap in Hk as ([k' v] & -> & Hu).
  apply elem_of_list_to_set. by apply (proj1 (Forall_forall _ _) H (k', v)).
- intros name value. unfold updateField. apply lookup_insert_eq.
- clear Hdom. intros k.
  induction updates as [|[k' v] updates IH] using rev_ind; intros H; [done|].
  rewrite fmap_app in H. apply not_elem_of_app in H as [H Hk].
  rewrite foldl_snoc. unfold updateField at 1. simpl.
  rewrite lookup_insert_ne; [by apply IH|].
  intros ->. apply Hk. simpl. apply list_elem_of_here.
Qed.

Lemma form_keeps_schema_keys_witness :
  let name := mkProperty "p1" "name" p_text None (Some true) in
  let stars := mkProperty "p4" "stars" p_rating None None in
  let updates := [("stars", JNum 3); ("name", JStr "Dune"); ("stars", JNum 5)] in
  (("__proto__" ∉ Property_name <$> [name; stars]) ∧
   Forall (λ u : string * jsval, u.1 ∈ Property_name <$> [name; stars]) updates) ∧
  dom (foldl (λ data u, updateField data u.1 u.2) (initialData [name; stars]) updates) =
    list_to_set (Property_name <$> [name; stars]).
Proof.
assert (H : Forall (λ u : string * jsval,
                      u.1 ∈ Property_name <$> [mkProperty "p1" "name" p_text None (Some true);
                                               mkProperty "p4" "stars" p_rating None None])
              [("stars", JNum 3); ("name", JStr "Dune"); ("stars", JNum 5)]).
{ repeat constructor; simpl;
    first [ apply list_elem_of_here | apply list_elem_of_further, list_elem_of_here ]. }
assert (Hp : "__proto__" ∉ Property_name <$>
               [mkProperty "p1" "name" p_text None (Some true);
                mkProperty "p4" "stars" p_rating None None]).
{ apply (bool_decide_unpack _). vm_compute. exact I. }
split; [by split|].
exact (proj1 (proj2 (form_keeps_schema_keys _ _)) Hp H).
Defined.

(** X21: after an upload the image block holds the address and the file
    name: [url] reads as the public address, [alt] as the file name, and
    every other property of the content, the caption among them, reads as
    before; the content is then shown as an image, its [url] being set,
    when the address is not empty. *)
Theorem uploaded_image_content (l : list (string * jsval)) (publicUrl fileName : string) :
  js_get "url" (ImageBlockEditor_uploaded (JObj l) publicUrl fileName) = Some (JStr publicUrl) ∧
  js_get "alt" (ImageBlockEditor_uploaded (JObj l) publicUrl fileName) = Some (JStr fileName) ∧
  (∀ k, k ≠ "url" → k ≠ "alt" →
        js_get k (ImageBlockEditor_uploaded (JObj l) publicUrl fileName) = js_get k (JObj l)) ∧
  (publicUrl ≠ "" →
   js_truthy (js_get "url" (ImageBlockEditor_uploaded (JObj l) publicUrl fileName)) = true).
Proof.
unfold ImageBlockEditor_uploaded. cbn [js_get js_spread].
assert (Hurl : assoc_last "url" (obj_set "alt" (JStr fileName)
                 (obj_set "url" (JStr publicUrl) l)) = Some (JStr publicUrl)).
{ rewrite assoc_last_obj_set_other by discriminate. apply assoc_last_obj_set. }
split; [done|]. split; [apply assoc_last_obj_set|]. split.
- intros k H1 H2. by rewrite !assoc_last_obj_set_other.
- intros H. rewrite Hurl. by destruct publicUrl.
Qed.

Lemma uploaded_image_content_witness :
  ("caption" ≠ "url" ∧ "caption" ≠ "alt") ∧
  js_get "caption"
    (ImageBlockEditor_uploaded (JObj [("url", JStr ""); ("caption", JStr "Cover"); ("alt", JStr "")])
       "https://cdn/cover.png" "cover.png") =
  js_get "caption" (JObj [("url", JStr ""); ("caption", JStr "Cover"); ("alt", JStr "")]).
Proof.
assert (H1 : "caption" ≠ "url") by discriminate.
assert (H2 : "caption" ≠ "alt") by discriminate.
split; [by split|].
exact (proj1 (proj2 (proj2 (uploaded_image_content
         [("url", JStr ""); ("caption", JStr "Cover"); ("alt", JStr "")]
         "https://cdn/cover.png" "cover.png"))) "caption" H1 H2).
Defined.

(** X22: a property added through the dialog.  The dialog opens on a property
    with a blank name, type text and not required, which cannot be saved as
    it is; once it has a name, the saved property carries the id that was
    made when the dialog was opened, whatever the clock says at saving, and
    goes to the end of a list that does not hold this id. *)
Theorem added_property_goes_last (opened saving : Z) (properties : list DatabaseProperty)
    (name : string) (type : PropertyType) (required : bool) (options : list string) :
  PropertyEditorDialog_state (Some (addProperty opened)) = ("", p_text, false, []) ∧
  PropertyEditorDialog_resave saving (addProperty opened) = None ∧
  (trim name ≠ "" →
   "prop-" +:+ Z_to_string opened ∉ Property_id <$> properties →
   ∃ saved,
     PropertyEditorDialog_handleSave saving (Some (addProperty opened))
       name type required options = Some saved ∧
     Property_id saved = "prop-" +:+ Z_to_string opened ∧
     saveProperty properties saved = properties ++ [saved]).
Proof.
split; [done|]. split; [done|].
intros Hname Hfresh. unfold PropertyEditorDialog_handleSave.
destruct (trim name) as [|c r] eqn:E; [done|].
eexists. split; [reflexivity|]. split; [reflexivity|].
by apply saveProperty_absent.
Qed.

Lemma added_property_goes_last_witness :
  let A := mkProperty "a" "A" p_text None None in
  (trim "Price" ≠ "" ∧ "prop-" +:+ Z_to_string 1700000000000 ∉ Property_id <$> [A]) ∧
  ∃ saved,
    PropertyEditorDialog_handleSave 1700000009999 (Some (addProperty 1700000000000))
      "Price" p_number false [] = Some saved ∧
    Property_id saved = "prop-" +:+ Z_to_string 1700000000000 ∧
    saveProperty [A] saved = [A] ++ [saved].
Proof.
assert (H1 : trim "Price" ≠ "") by (vm_compute; discriminate).
assert (H2 : "prop-" +:+ Z_to_string 1700000000000 ∉
             Property_id <$> [mkProperty "a" "A" p_text None None]).
{ simpl. intros H. repeat (apply elem_of_cons in H as [H|H]; [vm_compute in H; discriminate H|]).
  by apply elem_of_nil in H. }
split; [by split|].
exact (proj2 (proj2 (added_property_goes_last 1700000000000 1700000009999
                       [mkProperty "a" "A" p_text None None]
                       "Price" p_number false [])) H1 H2).
Defined.
